(** * The flood-retrieval scenario driver, [examples/ndn-flood-test.cpp]

    A shallow embedding of the scenario program and of the collaborators its
    specification describes, followed by the properties the specification
    states about them.

    - [Cxx]: the C++ scalars the program computes with: [uint32_t] with its
      wrap-around, [int], [double] (IEEE binary64, Rocq's primitive floats),
      [std::to_string], [std::map<int,int>] in key order.
    - [Driver]: [main], statement by statement.  The library calls whose
      code is not part of the scenario file (the Mersenne twister, the
      exponential and Zipf-Mandelbrot samplers, the conversion [Seconds])
      are the fields of the [Platform] class; every result below holds for
      all of them.
    - [EventScheduler], [ContentStore]: the two components the
      specification describes in words and the scenario file only uses.
    - [Replay]: counters in place of the random sources, to run the model
      on concrete inputs. *)

From Stdlib Require Import ZArith PrimFloat Uint63 String Ascii Lia.
From stdpp Require Import gmap strings list pretty sorting.

Local Open Scope Z_scope.
Set Warnings "-inexact-float".

(** ** C++ scalars and containers *)
Module Cxx.

Definition double : Type := float.

(** [uint32_t] arithmetic wraps modulo 2^32. *)
Definition u32 (x : Z) : Z := x mod 2 ^ 32.

(** Conversion [uint32_t -> int] (two's complement). *)
Definition to_int (x : Z) : Z := if u32 x <? 2 ^ 31 then u32 x else u32 x - 2 ^ 32.

(** Conversion of an unsigned 32-bit count to [double]; exact below 2^53. *)
Definition of_u32 (x : Z) : double := PrimFloat.of_uint63 (Uint63.of_Z x).

(** [std::to_string(int)]: decimal digits, a leading minus sign when negative. *)
Definition to_string (x : Z) : string := pretty x.

(** [a % b] on unsigned operands; a zero divisor is undefined behaviour. *)
Definition umod (a b : Z) : option Z := if b =? 0 then None else Some (a mod b).

Definition endl : string := String (ascii_of_nat 10) EmptyString.

(** [std::map<int,int>], kept in increasing key order: iteration order is
    what [begin()] and [std::advance] observe. *)
Definition int_map : Type := list (Z * Z).

(** [m[k]++]: a missing key is first inserted with value 0. *)
Fixpoint map_incr (k : Z) (m : int_map) : int_map :=
  match m with
  | [] => [(k, 1)]
  | (k', v) :: m' =>
      if k <? k' then (k, 1) :: m
      else if k =? k' then (k', v + 1) :: m'
      else (k', v) :: map_incr k m'
  end.

(** The value stored under [k], 0 when there is none. *)
Fixpoint map_count (k : Z) (m : int_map) : Z :=
  match m with
  | [] => 0
  | (k', v) :: m' => if k =? k' then v else map_count k m'
  end.

(** [m.begin() == m.end()] *)
Definition map_empty (m : int_map) : bool :=
  match m with [] => true | _ => false end.

(** [m.size()] *)
Definition map_size (m : int_map) : Z := Z.of_nat (length m).

(** [std::map<int,int>] used only through [operator[]] on keys: a finite
    map; reading a missing key yields the value-initialised 0. *)
Definition map_at (m : gmap Z Z) (k : Z) : Z := default 0 (m !! k).

End Cxx.

(** ** The scenario program

    [main] is embedded in two pieces, as the file itself is laid out: the
    topology and stack set-up ([build_topology]) and the scheduling of the
    simulation events ([schedule_events]).  The state of the second piece
    is the record [St] of [main]'s locals together with the list of calls
    handed to [Simulator::Schedule], in program order.

    Left out, because nothing that is modelled depends on them: logging
    ([NS_LOG_INFO]), [Config::SetDefault], the [CommandLine] parsing that
    fills the parameters, the unused [RocketfuelParams], and the calls to
    the strategy-choice and global-routing helpers.  The [int] counts in the
    session maps are unbounded integers (signed overflow is undefined
    behaviour, and 2^31 connects of one pair are out of reach); the
    [uint32_t] counter [num_connected] wraps.  Loops whose exit depends on
    the random draws take a budget [fuel] of iterations. *)
Module Driver.
Import Cxx.

(** Command-line parameters, as [cmd.Parse] leaves them in [main]'s locals. *)
Record Params := {
  num_contents : Z;
  connection_rate : double;
  disconnection_rate : double;
  initialization_period_length : double;
  observation_period_length : double;
  zipf_exponent : double;
  cache_size : Z;
  topology_file : string
}.

(** Simulator time: the integer tick count behind ns-3's [Time]. *)
Definition Time : Type := Z.

(** A node is its ns-3 node id; the topology reader creates ids [0 .. N-1]
    and every later [Create] continues the numbering. *)
Definition Node : Type := Z.
Definition NodeContainer : Type := list Node.

Definition GetN {A} (c : list A) : Z := u32 (Z.of_nat (length c)).

(** [c.Get(i)]: an index past the end is undefined behaviour. *)
Definition Get {A} (c : list A) (i : Z) : option A :=
  if (0 <=? i) && (i <? Z.of_nat (length c)) then c !! Z.to_nat i else None.

(** [NodeContainer::Create(n)] with [next] nodes already in existence. *)
Definition Create (next : Z) (n : Z) : NodeContainer := seqZ next n.

(** An application installed by an [AppHelper]. *)
Record App := {
  app_type : string;
  app_prefix : string;
  app_node : Node
}.

#[global] Instance App_eq_dec : EqDecision App.
Proof. solve_decision. Defined.

(** The content-store factory of a [StackHelper], set by [SetOldContentStore]. *)
Record ContentStoreConfig := {
  cs_type : string;
  cs_attr : string;
  cs_value : string
}.

(** What [main] hands to [Simulator::Schedule]. [UpLink] is the other half
    of the link-control helper's interface. *)
Inductive Call :=
| FloodPacketWithSeq (consumer : App) (seq : Z) (hop : Z)
| RemoveRoute (node : Node) (name : string)
| RemoveRouteVia (node : Node) (name : string) (other : Node)
| FailLink (a b : Node)
| UpLink (a b : Node).

(** *** Topology and stack set-up (lines 176-246) *)
Record Topo := {
  nodes : NodeContainer;
  num_infrastructure_nodes : Z;
  app_to_node : gmap Z Z;
  access_to_router : gmap Z Z;
  consumer_nodes : NodeContainer;
  producer_node : NodeContainer;
  infrastructure_nodes : NodeContainer;
  links : list (Node * Node);
  stacks : list (Node * ContentStoreConfig);
  consumer_apps : list App;
  producer_apps : list App
}.

(** A counted [for] loop whose body may hit undefined behaviour. *)
Fixpoint for_each {A} (idx : list Z) (body : Z → A → option A) (a : A) : option A :=
  match idx with
  | [] => Some a
  | i :: idx' =>
      match body i a with
      | Some a' => for_each idx' body a'
      | None => None
      end
  end.

Definition prefix : string := "/prefix".

(** [ndnHelper.SetOldContentStore(type, attr, value); ndnHelper.Install(c)] *)
Definition Install (cfg : ContentStoreConfig) (c : NodeContainer) : list (Node * ContentStoreConfig) :=
  (λ n, (n, cfg)) <$> c.

Definition build_topology (p : Params) (N : Z) : option Topo :=
  let nodes0 := seqZ 0 N in
  let num_infrastructure_nodes := GetN nodes0 in
  let consumer_nodes := Create (Z.of_nat (length nodes0)) (u32 (num_infrastructure_nodes - 1)) in
  let producer_node :=
    Create (Z.of_nat (length nodes0) + Z.of_nat (length consumer_nodes)) 1 in
  let nodes := nodes0 ++ consumer_nodes ++ producer_node in
  (* for each infrastructure node attach a user node *)
  attached ← for_each (seqZ 0 num_infrastructure_nodes)
    (λ i '(ls, a2n, a2r),
       a ← Get nodes i;
       b ← Get nodes (u32 (i + num_infrastructure_nodes));
       Some (ls ++ [(a, b)],
             <[to_int i := to_int (u32 (i + num_infrastructure_nodes))]> a2n,
             <[to_int (u32 (i + num_infrastructure_nodes)) := to_int i]> a2r))
    ([], ∅, ∅);
  let '(links, app_to_node, access_to_router) := attached in
  infrastructure_nodes ← for_each (seqZ 0 num_infrastructure_nodes)
    (λ i acc, n ← Get nodes i; Some (acc ++ [n])) [];
  (* Install NDN stack on all nodes *)
  let ndnHelperCaching :=
    {| cs_type := "ns3::ndn::cs::Lru"; cs_attr := "MaxSize";
       cs_value := to_string (cache_size p) |} in
  let ndnHelperInfCaching :=
    {| cs_type := "ns3::ndn::cs::Lru"; cs_attr := "MaxSize";
       cs_value := to_string (num_contents p) |} in
  let stacks :=
    Install ndnHelperCaching infrastructure_nodes
    ++ Install ndnHelperInfCaching consumer_nodes
    ++ Install ndnHelperInfCaching producer_node in
  (* Installing applications *)
  consumer_apps ← for_each (seqZ 0 (GetN consumer_nodes))
    (λ i acc,
       n ← Get consumer_nodes i;
       Some (acc ++ [{| app_type := "ns3::ndn::ConsumerSit"; app_prefix := prefix;
                        app_node := n |}])) [];
  let producer_apps :=
    (λ n, {| app_type := "ns3::ndn::Producer"; app_prefix := prefix; app_node := n |})
      <$> producer_node in
  Some {| nodes := nodes;
          num_infrastructure_nodes := num_infrastructure_nodes;
          app_to_node := app_to_node;
          access_to_router := access_to_router;
          consumer_nodes := consumer_nodes;
          producer_node := producer_node;
          infrastructure_nodes := infrastructure_nodes;
          links := links;
          stacks := stacks;
          consumer_apps := consumer_apps;
          producer_apps := producer_apps |}.

(** *** Random sources

    The generators and the conversion to simulator time are library code
    outside the scenario file.  Each generator is a deterministic function
    of its own state; nothing else is assumed. *)
Class Platform := {
  mt19937 : Type;
  (** [std::mt19937 g(seed)] *)
  mt_seed : Z → mt19937;
  (** [g()] *)
  rnd_gen : mt19937 → Z * mt19937;
  (** [std::exponential_distribution<double>(lambda)(g)] *)
  exponential : double → mt19937 → double * mt19937;
  ZipfMandelbrot : Type;
  (** [ndn::ConsumerZipfMandelbrot(N, q, s)] *)
  zipf_init : Z → Z → double → ZipfMandelbrot;
  (** [content_dist.GetNextSeq()] *)
  GetNextSeq : ZipfMandelbrot → Z * ZipfMandelbrot;
  (** [Seconds(d)]: a [double] number of seconds as simulator time *)
  Seconds : double → Time
}.

Record exponential_distribution := { lambda : double }.

(** Lines 87-92. *)
Definition set_new_lambda (exp_dis : exponential_distribution) (val : double)
  : exponential_distribution :=
  let new_lambda := {| lambda := val |} in new_lambda.

Section Events.
Context `{Platform}.

(** [main]'s locals from line 253 on, and the calls handed to the simulator
    so far, in program order, each with the time it was scheduled for. *)
Record St := {
  gen : mt19937;
  content_dist : ZipfMandelbrot;
  connect_time : double;
  disconnect_time : double;
  rng_exp_con : exponential_distribution;
  rng_exp_dis : exponential_distribution;
  num_connected : Z;
  connected_content : list int_map;
  sched : list (Time * Call);
  stop_at : option Time
}.

(** How a piece of [main] ends: normally, in undefined behaviour, or with
    the loop budget of the model used up; the last two keep the state reached. *)
Inductive Res (A : Type) : Type :=
| Ok (a : A)
| Fault (s : St)
| Timeout (s : St).
Arguments Ok {A} a.
Arguments Fault {A} s.
Arguments Timeout {A} s.

(** How a loop body ends: falling through to the test, or by [break]. *)
Inductive Ctl := Next (s : St) | Brk (s : St).

Definition with_gen (g : mt19937) (s : St) : St :=
  {| gen := g; content_dist := content_dist s; connect_time := connect_time s;
     disconnect_time := disconnect_time s; rng_exp_con := rng_exp_con s;
     rng_exp_dis := rng_exp_dis s; num_connected := num_connected s;
     connected_content := connected_content s; sched := sched s;
     stop_at := stop_at s |}.

Definition with_sched (l : list (Time * Call)) (s : St) : St :=
  {| gen := gen s; content_dist := content_dist s; connect_time := connect_time s;
     disconnect_time := disconnect_time s; rng_exp_con := rng_exp_con s;
     rng_exp_dis := rng_exp_dis s; num_connected := num_connected s;
     connected_content := connected_content s; sched := l;
     stop_at := stop_at s |}.


(** [do body while (cond)]: the body runs before the first test. *)
Fixpoint do_while (fuel : nat) (body : St → Res St) (cond : St → bool) (s : St) : Res St :=
  match body s with
  | Ok s' =>
      if cond s' then
        match fuel with
        | O => Timeout s'
        | S fuel' => do_while fuel' body cond s'
        end
      else Ok s'
  | Fault s' => Fault s'
  | Timeout s' => Timeout s'
  end.

(** [while (cond) body]; the body receives the budget left for its own loops. *)
Fixpoint while_do (fuel : nat) (cond : St → bool) (body : nat → St → Res Ctl) (s : St) : Res St :=
  if cond s then
    match fuel with
    | O => Timeout s
    | S fuel' =>
        match body fuel' s with
        | Ok (Next s') => while_do fuel' cond body s'
        | Ok (Brk s') => Ok s'
        | Fault s' => Fault s'
        | Timeout s' => Timeout s'
        end
    end
  else Ok s.

(** [connected_content[app_indx][content_indx]++]; [app_indx] is below the
    size of the array, being a remainder modulo that size. *)
Definition bump (app_indx content_indx : Z) (cc : list int_map) : list int_map :=
  match Get cc app_indx with
  | Some m => <[Z.to_nat app_indx := map_incr (to_int content_indx) m]> cc
  | None => cc
  end.

(** Body of the initialization loop (lines 266-276). *)
Definition connect_body (T : Topo) (s : St) : Res St :=
  let '(r, g1) := rnd_gen (gen s) in
  match umod r (GetN (consumer_apps T)) with
  | None => Fault s
  | Some app_indx =>
      match Get (consumer_apps T) app_indx with
      | None => Fault s
      | Some consumer =>
          let '(c, z1) := GetNextSeq (content_dist s) in
          let content_indx := u32 c in
          let sched1 :=
            sched s ++ [(Seconds (connect_time s), FloodPacketWithSeq consumer content_indx 2)] in
          let num1 := u32 (num_connected s + 1) in
          let '(gap, g2) := exponential (lambda (rng_exp_con s)) g1 in
          Ok {| gen := g2; content_dist := z1;
                connect_time := (connect_time s + gap)%float;
                disconnect_time := disconnect_time s;
                rng_exp_con := rng_exp_con s; rng_exp_dis := rng_exp_dis s;
                num_connected := num1;
                connected_content := bump app_indx content_indx (connected_content s);
                sched := sched1; stop_at := stop_at s |}
      end
  end.

(** Lines 316-319: draw consumers until one with a live session comes up. *)
Fixpoint pick_connected (fuel : nat) (T : Topo) (s : St) : Res (Z * St) :=
  let '(r, g1) := rnd_gen (gen s) in
  let s1 := with_gen g1 s in
  match umod r (GetN (consumer_apps T)) with
  | None => Fault s
  | Some app_indx =>
      match Get (connected_content s1) app_indx with
      | None => Fault s1
      | Some m =>
          if map_empty m then
            match fuel with
            | O => Timeout s1
            | S fuel' => pick_connected fuel' T s1
            end
          else Ok (app_indx, s1)
      end
  end.

(** Lines 336-340: the rate handed to [set_new_lambda]. *)
Definition disconnect_lambda (rate : double) (num_connected : Z) : double :=
  if 0 =? num_connected then (rate * of_u32 1)%float
  else (rate * of_u32 num_connected)%float.

(** Body of the disconnection loop (lines 309-345). *)
Definition disconnect_body (T : Topo) (p : Params) (fuel : nat) (s : St) : Res Ctl :=
  if 0 =? num_connected s then Ok (Brk s)
  else
    match pick_connected fuel T s with
    | Fault s' => Fault s'
    | Timeout s' => Timeout s'
    | Ok (app_indx, s1) =>
        let m := default [] (Get (connected_content s1) app_indx) in
        let '(r, g2) := rnd_gen (gen s1) in
        let s2 := with_gen g2 s1 in
        match umod r (map_size m) with
        | None => Fault s1
        | Some k =>
            match Get m k with
            | None => Fault s2
            | Some (first, second) =>
                let second' := second - 1 in
                let removal :=
                  if 0 =? second' then
                    let content := "ndn://" +:+ prefix +:+ to_string first in
                    let access_node := map_at (app_to_node T) (to_int app_indx) in
                    let router_node := map_at (access_to_router T) access_node in
                    a ← Get (nodes T) (u32 router_node);
                    b ← Get (nodes T) (u32 access_node);
                    Some (delete (Z.to_nat k) m,
                          sched s2 ++ [(Seconds (disconnect_time s2), RemoveRouteVia a content b)])
                  else Some (<[Z.to_nat k := (first, second')]> m, sched s2) in
                match removal with
                | None => Fault s2
                | Some (m', sched') =>
                    let num1 := u32 (num_connected s2 - 1) in
                    let lam := disconnect_lambda (disconnection_rate p) num1 in
                    let dis := set_new_lambda (rng_exp_dis s2) lam in
                    let '(gap, g3) := exponential (lambda dis) g2 in
                    Ok (Next
                      {| gen := g3; content_dist := content_dist s2;
                         connect_time := connect_time s2;
                         disconnect_time := (disconnect_time s2 + gap)%float;
                         rng_exp_con := rng_exp_con s2; rng_exp_dis := dis;
                         num_connected := num1;
                         connected_content :=
                           <[Z.to_nat app_indx := m']> (connected_content s2);
                         sched := sched'; stop_at := stop_at s2 |})
                end
            end
        end
    end.

(** Body of the observation loop (lines 298-346).  The disconnection loop
    is guarded by the literal [0]. *)
Definition observe_body (T : Topo) (p : Params) (fuel : nat) (s : St) : Res Ctl :=
  let '(r, g1) := rnd_gen (gen s) in
  match umod r (GetN (consumer_apps T)) with
  | None => Fault s
  | Some app_indx =>
      match Get (consumer_apps T) app_indx with
      | None => Fault s
      | Some consumer =>
          let '(c, z1) := GetNextSeq (content_dist s) in
          let content_indx := u32 c in
          let num1 := u32 (num_connected s + 1) in
          let sched1 :=
            sched s ++ [(Seconds (connect_time s), FloodPacketWithSeq consumer content_indx 2)] in
          let cc1 := bump app_indx content_indx (connected_content s) in
          let '(gap, g2) := exponential (lambda (rng_exp_con s)) g1 in
          let connect_time_next := (connect_time s + gap)%float in
          let s1 :=
            {| gen := g2; content_dist := z1; connect_time := connect_time s;
               disconnect_time := disconnect_time s;
               rng_exp_con := rng_exp_con s; rng_exp_dis := rng_exp_dis s;
               num_connected := num1; connected_content := cc1;
               sched := sched1; stop_at := stop_at s |} in
          match while_do fuel (λ _, false) (disconnect_body T p) s1 with
          | Fault s' => Fault s'
          | Timeout s' => Timeout s'
          | Ok s2 =>
              Ok (Next
                {| gen := gen s2; content_dist := content_dist s2;
                   connect_time := connect_time_next;
                   disconnect_time := disconnect_time s2;
                   rng_exp_con := rng_exp_con s2; rng_exp_dis := rng_exp_dis s2;
                   num_connected := num_connected s2;
                   connected_content := connected_content s2;
                   sched := sched s2; stop_at := stop_at s2 |})
          end
      end
  end.

(** Lines 279-287: the producer leaves at the end of the initialization period. *)
Definition disconnect_producer (T : Topo) (p : Params) (s : St) : Res St :=
  let n := "ndn://" +:+ prefix in
  let N := num_infrastructure_nodes T in
  match
    for_each (seqZ 0 N)
      (λ indx l,
         nd ← Get (nodes T) indx;
         Some (l ++ [(Seconds (initialization_period_length p), RemoveRoute nd n)]))
      (sched s)
  with
  | None => Fault s
  | Some sched1 =>
      match Get (nodes T) (u32 (N - 1)),
            Get (nodes T) (u32 (map_at (app_to_node T) (to_int (u32 (N - 1))))) with
      | Some a, Some b =>
          Ok (with_sched
                (sched1 ++ [(Seconds (initialization_period_length p), FailLink a b)]) s)
      | _, _ => Fault (with_sched sched1 s)
      end
  end.

(** Lines 253-264: the state in which the initialization loop starts. *)
Definition initial (T : Topo) (p : Params) (seed : Z) : St :=
  {| gen := mt_seed seed;
     content_dist := zipf_init (num_contents p) 0 (zipf_exponent p);
     connect_time := 0.2%float;
     disconnect_time := 0.2%float;
     rng_exp_con := {| lambda := connection_rate p |};
     rng_exp_dis := {| lambda := disconnection_rate p |};
     num_connected := 0;
     connected_content := replicate (Z.to_nat (GetN (consumer_apps T))) [];
     sched := [];
     stop_at := None |}.

(** Lines 289-291. *)
Definition enter_observation (p : Params) (s : St) : St :=
  let connect_time := (initialization_period_length p + 0.2)%float in
  {| gen := gen s; content_dist := content_dist s;
     connect_time := connect_time; disconnect_time := connect_time;
     rng_exp_con := rng_exp_con s; rng_exp_dis := rng_exp_dis s;
     num_connected := num_connected s; connected_content := connected_content s;
     sched := sched s; stop_at := stop_at s |}.

(** Line 349. *)
Definition Stop (t : Time) (s : St) : St :=
  {| gen := gen s; content_dist := content_dist s;
     connect_time := connect_time s; disconnect_time := disconnect_time s;
     rng_exp_con := rng_exp_con s; rng_exp_dis := rng_exp_dis s;
     num_connected := num_connected s; connected_content := connected_content s;
     sched := sched s; stop_at := Some t |}.

(** Lines 253-349: everything [main] does between the topology set-up and
    [Simulator::Run]. *)
Definition schedule_events (T : Topo) (p : Params) (seed : Z) (fuel : nat) : Res St :=
  match
    do_while fuel (connect_body T)
      (λ s, (connect_time s <? initialization_period_length p)%float)
      (initial T p seed)
  with
  | Fault s => Fault s
  | Timeout s => Timeout s
  | Ok s1 =>
      match disconnect_producer T p s1 with
      | Fault s => Fault s
      | Timeout s => Timeout s
      | Ok s2 =>
          match
            while_do fuel
              (λ s, (connect_time s <?
                       observation_period_length p + initialization_period_length p)%float)
              (observe_body T p)
              (enter_observation p s2)
          with
          | Fault s => Fault s
          | Timeout s => Timeout s
          | Ok s3 =>
              Ok (Stop
                    (Seconds (observation_period_length p + initialization_period_length p)%float)
                    s3)
          end
      end
  end.

(** What a run of the program amounts to. *)
Inductive Outcome :=
| Exited (out : string) (status : Z)
| SetupFault
| Driven (T : Topo) (r : Res St).

(** [main(argc, argv)], with the parsed parameters, the number [N] of nodes
    the topology file describes, and the seed [std::random_device] returns.
    [Driven T (Ok s)] is the point where [Simulator::Run] is entered; the
    program then returns 0. *)
Definition main (argc : Z) (p : Params) (N : Z) (seed : Z) (fuel : nat) : Outcome :=
  if argc <? 10 then
    Exited ("Invalid number of parameters: " +:+ to_string argc +:+ ", Expecting 10" +:+ endl) 0
  else
    match build_topology p N with
    | None => SetupFault
    | Some T => Driven T (schedule_events T p seed fuel)
    end.

(** The state a run has reached, however it ended. *)
Definition state_of (r : Res St) : St :=
  match r with Ok s => s | Fault s => s | Timeout s => s end.

End Events.

Arguments Ok {_ A} a.
Arguments Fault {_ A} s.
Arguments Timeout {_ A} s.

End Driver.

(** ** The event scheduler

    The scenario file only calls the simulator ([Simulator::Schedule],
    [Stop], [Run]); the scheduler itself belongs to the simulation framework
    and is modelled here from its description in the specification. *)
Module EventScheduler.
Import Cxx Driver.

(** Modelled from the spec: an event of the missing simulator, a fire time
    and what to run then. *)
Record Event := { fire_time : Time; action : Call }.

(** Modelled from the spec: the time-ordered priority structure of the
    simulator, whose code is not in the scenario file.  An event goes
    behind every pending event that fires no later than it does, so events
    with equal timestamps leave in insertion order. *)
Fixpoint enqueue (e : Event) (q : list Event) : list Event :=
  match q with
  | [] => [e]
  | e' :: q' =>
      if fire_time e <? fire_time e' then e :: q else e' :: enqueue e q'
  end.

(** Modelled from the spec: [schedule(time, event)] of the missing
    simulator.  Scheduling at a negative or past time is the caller error
    [InvalidTime], here [None]. *)
Definition schedule (now : Time) (t : Time) (c : Call) (q : list Event) : option (list Event) :=
  if (t <? 0) || (t <? now) then None
  else Some (enqueue {| fire_time := t; action := c |} q).

(** Modelled from the spec: the requests of one caller of the missing
    simulator, served in the order they were made. *)
Fixpoint schedule_all (now : Time) (reqs : list (Time * Call)) (q : list Event)
  : option (list Event) :=
  match reqs with
  | [] => Some q
  | (t, c) :: reqs' =>
      match schedule now t c q with
      | Some q' => schedule_all now reqs' q'
      | None => None
      end
  end.

(** The queue [Simulator::Run] starts from: [main]'s calls, made at time 0. *)
Definition load (calls : list (Time * Call)) : option (list Event) :=
  schedule_all 0 calls [].

(** How a run has ended: the queue is exhausted up to the stop time, a
    handler made an invalid request, or the budget of the model ran out. *)
Inductive Status := Halted | Failed | Pending.

Section Run.
Context {World : Type}.

(** An event handler runs to completion; it changes the simulated world and
    may schedule further events. *)
Variable handle : Call → Time → World → World * list (Time * Call).

(** Modelled from the spec: the state of the missing simulator during a
    run, with the events executed so far. *)
Record Sim := {
  clock : Time;
  queue : list Event;
  world : World;
  executed : list Event
}.

(** The simulator when [Run] is entered: time 0, nothing executed yet. *)
Definition start (q : list Event) (w : World) : Sim :=
  {| clock := 0; queue := q; world := w; executed := [] |}.

(** Modelled from the spec: [run_until(stop_time)] of the missing simulator:
    extract and execute the earliest event until none remains with time at
    most [stop]; a handler's invalid request ends the run. [fuel] bounds the
    number of events executed. *)
Fixpoint run_until (fuel : nat) (stop : Time) (sim : Sim) : Status * Sim :=
  match queue sim with
  | [] => (Halted, sim)
  | e :: q =>
      if stop <? fire_time e then (Halted, sim)
      else
        match fuel with
        | O => (Pending, sim)
        | S fuel' =>
            let '(w, reqs) := handle (action e) (fire_time e) (world sim) in
            let done := executed sim ++ [e] in
            match schedule_all (fire_time e) reqs q with
            | None =>
                (Failed, {| clock := fire_time e; queue := q; world := w; executed := done |})
            | Some q' =>
                run_until fuel' stop
                  {| clock := fire_time e; queue := q'; world := w; executed := done |}
            end
        end
  end.

End Run.

(** The events of the phase boundary, in the order the specification
    demands: the coarse route removal at every infrastructure node
    [0 .. N-1], then the failure of the link between the last infrastructure
    node and the producer, node [2N-1]. *)
Definition boundary_events (N : Z) (t : Time) : list Event :=
  ((λ i, {| fire_time := t; action := RemoveRoute i "ndn:///prefix" |}) <$> seqZ 0 N)
  ++ [{| fire_time := t; action := FailLink (N - 1) (2 * N - 1) |}].

End EventScheduler.

(** ** The content store

    The scenario file only configures the stores ([SetOldContentStore]);
    the store itself belongs to the simulation framework and is modelled
    here from its description in the specification. *)
Module ContentStore.

(** Modelled from the spec: the per-node LRU content store
    ([ns3::ndn::cs::Lru]), whose code is not in the scenario file.  The
    entries are kept most recently used first. *)
Record Store := {
  capacity : Z;
  entries : list Z
}.

(** Modelled from the spec: construction of the missing store; a zero or
    negative capacity is a [CapacityViolation], here [None]. *)
Definition create (k : Z) : option Store :=
  if k <=? 0 then None else Some {| capacity := k; entries := [] |}.

(** [c] becomes the most recently used entry. *)
Definition promote (c : Z) (l : list Z) : list Z :=
  c :: filter (λ x, x ≠ c) l.

(** Modelled from the spec: [get(content_id)] of the missing store: a hit
    promotes the entry to most recently used, a miss changes nothing. *)
Definition get (c : Z) (s : Store) : bool * Store :=
  if bool_decide (c ∈ entries s)
  then (true, {| capacity := capacity s; entries := promote c (entries s) |})
  else (false, s).

(** Modelled from the spec: [put(content_id)] of the missing store: insert
    or refresh as most recently used; a new id arriving at capacity first
    evicts the least recently used entry.  The evicted id is returned. *)
Definition put (c : Z) (s : Store) : option Z * Store :=
  if bool_decide (c ∈ entries s)
  then (None, {| capacity := capacity s; entries := promote c (entries s) |})
  else if Z.of_nat (length (entries s)) <? capacity s
  then (None, {| capacity := capacity s; entries := c :: entries s |})
  else (last (entries s),
        {| capacity := capacity s; entries := c :: removelast (entries s) |}).

(** A sequence of operations on one store. *)
Inductive Op := OpGet (c : Z) | OpPut (c : Z).

Definition op_id (o : Op) : Z := match o with OpGet c => c | OpPut c => c end.

Definition step (s : Store) (o : Op) : Store :=
  match o with
  | OpGet c => snd (get c s)
  | OpPut c => snd (put c s)
  end.

Definition run (ops : list Op) (s : Store) : Store := foldl step s ops.

(** Position in the history [h] of the last operation naming [c]. *)
Fixpoint last_touch (c : Z) (h : list Op) : option nat :=
  match h with
  | [] => None
  | o :: h' =>
      match last_touch c h' with
      | Some i => Some (S i)
      | None => if bool_decide (op_id o = c) then Some O else None
      end
  end.

End ContentStore.

(** ** Routing tables, links and forwarding

    The scenario file only schedules the calls that change routes and
    links ([FibHelper::RemoveRoute], [LinkControlHelper::FailLink]); the
    routing tables, the links and the flood protocol belong to the
    simulation framework and are modelled here from their description in
    the specification. *)
Module Forwarding.
Import Cxx Driver EventScheduler.

(** Modelled from the spec: the state of the missing RoutingTable and
    LinkControl components.  A routing entry is a node, a name and a next
    hop: the coarse entry of a prefix carries the name of the prefix, a
    content-scoped entry the prefix followed by the content id, so that the
    two kinds are tracked independently.  A link is Down when it is listed
    in [down], in either direction. *)
Record Net := {
  fib : list (Node * string * Node);
  down : list (Node * Node)
}.

(** Modelled from the spec: what the calls of the missing RoutingTable and
    LinkControl do.  A removal without next hop removes all entries for that
    name at the node, a removal with next hop only the entry pointing at
    that neighbour; [fail] and [restore] flip the flag of the link.  Links
    are mutated only by LinkControl, and the scenario has no call that
    installs an entry. *)
Definition apply_call (c : Call) (w : Net) : Net :=
  match c with
  | RemoveRoute n name =>
      {| fib := filter (λ x, ¬ (x.1.1 = n ∧ x.1.2 = name)) (fib w); down := down w |}
  | RemoveRouteVia n name b =>
      {| fib := filter (λ x, x ≠ (n, name, b)) (fib w); down := down w |}
  | FailLink a b => {| fib := fib w; down := (a, b) :: down w |}
  | UpLink a b =>
      {| fib := fib w; down := filter (λ l, l ≠ (a, b) ∧ l ≠ (b, a)) (down w) |}
  | FloodPacketWithSeq _ _ _ => w
  end.

(** Modelled from the spec: the routes and links of the missing components
    after the events [done] have been executed, starting from [w0]; only
    the executed calls change them. *)
Definition net_of (w0 : Net) (done : list Event) : Net :=
  foldl (λ w e, apply_call (action e) w) w0 done.

(** Modelled from the spec: the operational flag of the missing Link. *)
Definition link_up (w : Net) (a b : Node) : Prop :=
  ((a, b) ∉ down w) ∧ ((b, a) ∉ down w).

(** Modelled from the spec: the next hops of the entries of the missing
    RoutingTable at [n] for [name]. *)
Definition next_hops (w : Net) (n : Node) (name : string) : list Node :=
  snd <$> filter (λ x, x.1.1 = n ∧ x.1.2 = name) (fib w).

(** Modelled from the spec: lookup in the missing RoutingTable: the scoped
    entries for the exact content id first, else the coarse entries of the
    prefix, else no route. *)
Definition lookup (w : Net) (n : Node) (content : Z) : list Node :=
  match next_hops w n ("ndn://" +:+ prefix +:+ to_string content) with
  | [] => next_hops w n ("ndn://" +:+ prefix)
  | hops => hops
  end.

(** Modelled from the spec: the forwarding decision of the missing flood
    protocol.  A request for [content] with hop budget [h] that arrived at
    [n] from [from] is forwarded to [m] when the budget is not used up, a
    link joins [n] and [m] and is Up, [m] matches the routing-table lookup
    at [n], and [m] is not where the request came from.  [L] lists the
    links of the topology. *)
Definition forwards (L : list (Node * Node)) (w : Net) (content : Z) (h : Z)
    (from : option Node) (n m : Node) : Prop :=
  0 < h
  ∧ ((n, m) ∈ L ∨ (m, n) ∈ L)
  ∧ link_up w n m
  ∧ m ∈ lookup w n content
  ∧ from ≠ Some m.

(** Modelled from the spec: a request of the missing flood protocol, at
    [n] with budget [h], can reach [target]: it is there, or it is
    forwarded with budget [h - 1] to a node from which it can.  Cache hits
    and the suppression of duplicates only stop a request earlier and are
    left out. *)
Inductive reaches (L : list (Node * Node)) (w : Net) (content : Z) (target : Node)
  : Z → option Node → Node → Prop :=
| reaches_here h from : reaches L w content target h from target
| reaches_forward h from n m :
    forwards L w content h from n m →
    reaches L w content target (h - 1) (Some n) m →
    reaches L w content target h from n.

End Forwarding.

(** ** A replayable platform

    Counters in place of the generators, for running the model on concrete
    inputs: the twister counts up, every exponential draw is 1/(4 lambda)
    seconds, the popularity sampler walks the ranks cyclically, and a
    simulator tick is a millisecond. *)
Module Replay.
Import Cxx Driver.

(** Whole milliseconds in a [double]: with [d * 1000 = m * 2^e] and
    [m] in [[0.5, 1)], the 53-bit mantissa of [m] shifted by [e - 53].
    [frshiftexp] returns the exponent biased by 2101. *)
Definition millis (d : double) : Z :=
  let '(m, e) := PrimFloat.frshiftexp (PrimFloat.abs (d * 1000))%float in
  let ticks :=
    Z.shiftl (Uint63.to_Z (PrimFloat.normfr_mantissa m)) (Uint63.to_Z e - 2101 - 53) in
  if (d <? 0)%float then - ticks else ticks.

#[export] Instance platform : Platform := {|
  mt19937 := Z;
  mt_seed := λ seed, seed;
  rnd_gen := λ g, (u32 (g * 5 + 3), g + 1);
  exponential := λ lam g, ((1 / (lam * 4))%float, g);
  ZipfMandelbrot := Z * Z;
  zipf_init := λ n _ _, (n, 0);
  GetNextSeq := λ z, (snd z mod fst z, (fst z, snd z + 1));
  Seconds := millis
|}.

Definition params : Params :=
  {| num_contents := 5;
     connection_rate := 1%float;
     disconnection_rate := 1%float;
     initialization_period_length := 1%float;
     observation_period_length := 1%float;
     zipf_exponent := 0.8%float;
     cache_size := 2;
     topology_file := "topo-grid-3x3-producer-attached.txt" |}.

(** The same run with an initialization period of 0.1 s, shorter than the
    0.2 s at which the connect-time cursor starts. *)
Definition short_params : Params :=
  {| num_contents := 5;
     connection_rate := 1%float;
     disconnection_rate := 1%float;
     initialization_period_length := 0.1%float;
     observation_period_length := 1%float;
     zipf_exponent := 0.8%float;
     cache_size := 2;
     topology_file := "topo-grid-3x3-producer-attached.txt" |}.

End Replay.

(** * Vocabulary of the properties

    The predicates and observations in which the properties below are
    stated. *)

Import Cxx Driver EventScheduler ContentStore Forwarding.

(** ** Topology *)

(** The consumer application installed on node [n]. *)
Definition consumer_app (n : Node) : App :=
  {| app_type := "ns3::ndn::ConsumerSit"; app_prefix := prefix; app_node := n |}.

(** An LRU content store of [size] entries. *)
Definition lru (size : Z) : ContentStoreConfig :=
  {| cs_type := "ns3::ndn::cs::Lru"; cs_attr := "MaxSize"; cs_value := to_string size |}.

(** The topology for a file of [N] nodes: the nodes [0 .. 2N-1], the
    infrastructure first, then [N-1] consumers, then the producer; node
    [i + N] hangs off infrastructure node [i]. *)
Record topology_of (p : Params) (N : Z) (T : Topo) : Prop := {
  top_nodes : nodes T = seqZ 0 (2 * N);
  top_N : num_infrastructure_nodes T = N;
  top_consumers : consumer_nodes T = seqZ N (N - 1);
  top_producer : producer_node T = [2 * N - 1];
  top_infrastructure : infrastructure_nodes T = seqZ 0 N;
  top_links : links T = (λ i, (i, i + N)) <$> seqZ 0 N;
  top_stacks :
    stacks T = ((λ n, (n, lru (cache_size p))) <$> seqZ 0 N)
               ++ ((λ n, (n, lru (num_contents p))) <$> seqZ N N);
  top_apps : consumer_apps T = consumer_app <$> seqZ N (N - 1);
  top_app_to_node : ∀ i, 0 ≤ i < N → app_to_node T !! i = Some (i + N);
  top_access_to_router : ∀ i, 0 ≤ i < N → access_to_router T !! (i + N) = Some i
}.

(** The content-store configurations installed on node [n]. *)
Definition store_of (T : Topo) (n : Node) : list ContentStoreConfig :=
  snd <$> filter (λ x, x.1 = n) (stacks T).

(** ** Scheduled calls *)

Definition is_flood (c : Call) : bool :=
  match c with FloodPacketWithSeq _ _ _ => true | _ => false end.

Definition is_link_call (c : Call) : bool :=
  match c with FailLink _ _ | UpLink _ _ => true | _ => false end.

Definition is_scoped_removal (c : Call) : bool :=
  match c with RemoveRouteVia _ _ _ => true | _ => false end.

(** A flood with hop budget 2. *)
Definition flood2 (tc : Time * Call) : Prop :=
  ∃ consumer seq, tc.2 = FloodPacketWithSeq consumer seq 2.

(** The hop budget of every flood among the calls is 2. *)
Definition hop_budget_2 (tc : Time * Call) : Prop :=
  ∀ consumer seq hop, tc.2 = FloodPacketWithSeq consumer seq hop → hop = 2.

(** A call of the phase boundary: an unscoped route removal or a link failure. *)
Definition boundary_call (tc : Time * Call) : Prop :=
  (∃ n name, tc.2 = RemoveRoute n name) ∨ (∃ a b, tc.2 = FailLink a b).

(** A connect of consumer number [a] for content key [k]. *)
Definition is_connect (T : Topo) (a k : Z) (c : Call) : bool :=
  match c with
  | FloodPacketWithSeq consumer q _ =>
      bool_decide (Get (consumer_apps T) a = Some consumer) && bool_decide (to_int q = k)
  | _ => false
  end.

(** Number of connects of consumer [a] for content key [k] among the calls. *)
Definition connects (T : Topo) (l : list (Time * Call)) (a k : Z) : Z :=
  Z.of_nat (length (filter (λ tc, is_connect T a k tc.2) l)).

(** Number of connect floods among the calls. *)
Definition floods (l : list (Time * Call)) : Z :=
  Z.of_nat (length (filter (λ tc : Time * Call, is_flood tc.2) l)).

(** ** Sessions *)

(** The keys of a [std::map] are strictly increasing. *)
Definition keys_sorted (m : int_map) : Prop := StronglySorted Z.lt (m.*1).

(** Live sessions of consumer [a] for content key [k]. *)
Definition sessions (cc : list int_map) (a k : Z) : Z :=
  map_count k (default [] (Get cc a)).

(** ** Scheduler runs *)

(** A call of [main] as an event of the queue. *)
Definition event_of (tc : Time * Call) : Event :=
  {| fire_time := tc.1; action := tc.2 |}.

(** [e1] fires no later than [e2]. *)
Definition no_later (e1 e2 : Event) : Prop := fire_time e1 ≤ fire_time e2.

(** [e] carries the timestamp [t]. *)
Definition fires_at (t : Time) (e : Event) : Prop := fire_time e = t.

#[local] Instance fires_at_dec t e : Decision (fires_at t e).
Proof. unfold fires_at. apply _. Defined.

(** What a run maintains: the events executed so far followed by the
    pending ones are in time order, and contain the initial queue [q0] in
    its original order. *)
Definition in_order {World : Type} (q0 : list Event) (sim : @Sim World) : Prop :=
  StronglySorted no_later (executed sim ++ queue sim)
  ∧ q0 `sublist_of` executed sim ++ queue sim.

(** A handler that forwards a flood one millisecond later with one hop
    less, and does nothing else. *)
Definition forward_flood (c : Call) (t : Time) (w : unit) : unit * list (Time * Call) :=
  match c with
  | FloodPacketWithSeq a q h =>
      if 0 <? h then (w, [(t + 1, FloodPacketWithSeq a q (h - 1))]) else (w, [])
  | _ => (w, [])
  end.

(** The events of the coarse route removals of the phase boundary, one
    per infrastructure node, in the order [main] schedules them. *)
Definition removal_events (N : Z) (t : Time) : list Event :=
  (λ i, {| fire_time := t; action := RemoveRoute i "ndn:///prefix" |}) <$> seqZ 0 N.

(** The event of the failure of the producer's access link. *)
Definition failure_event (N : Z) (t : Time) : Event :=
  {| fire_time := t; action := FailLink (N - 1) (2 * N - 1) |}.

(** No infrastructure node holds a coarse entry for the producer's prefix. *)
Definition no_stale_entry (T : Topo) (net : Net) : Prop :=
  ∀ n m, n ∈ infrastructure_nodes T → (n, "ndn:///prefix", m) ∉ fib net.

(** The producer, node [2N-1], is cut off: its access link is Down, and no
    request at any other node can reach it, whatever the content, the hop
    budget and the node the request came from.  [L] lists the links. *)
Definition producer_cut_off (N : Z) (T : Topo) (L : list (Node * Node)) (net : Net)
  : Prop :=
  ¬ link_up net (N - 1) (2 * N - 1)
  ∧ ∀ content h from n, n ∉ producer_node T →
      ¬ reaches L net content (2 * N - 1) h from n.

(** A call that restores a link. *)
Definition is_restore (c : Call) : bool :=
  match c with UpLink _ _ => true | _ => false end.

(** The routes and links before any event: a line of three infrastructure
    nodes, every node with a coarse entry towards the producer, node 5. *)
Definition replay_net : Net :=
  {| fib := [(3, "ndn:///prefix", 0); (0, "ndn:///prefix", 1);
             (1, "ndn:///prefix", 2); (2, "ndn:///prefix", 5)];
     down := [] |}.

(** ** Content store histories *)

(** The ids a history names, most recently named first. *)
Definition recency (h : list Op) : list Z :=
  foldl (λ l o, promote (op_id o) l) [] h.

(** What every reachable store satisfies, [h] being the operations so far. *)
Record lru_ok (k : Z) (h : list Op) (s : Store) : Prop := {
  ok_capacity : capacity s = k;
  ok_positive : 0 < k;
  ok_size : Z.of_nat (length (entries s)) ≤ k;
  ok_nodup : NoDup (entries s);
  ok_recency : entries s `sublist_of` recency h
}.

(** ** Replayed inputs *)

(** The topology of the replayed runs: three infrastructure nodes. *)
Definition replay_topology : Topo :=
  default (Build_Topo [] 0 ∅ ∅ [] [] [] [] [] [] []) (build_topology Replay.params 3).

(** A state in the observation period in which consumer 0 holds a single
    session, for content 4, and one connection is counted. *)
Definition last_session : St (H := Replay.platform) :=
  @Build_St Replay.platform 5 (5, 0) 3%float 2.5%float
    {| lambda := 1%float |} {| lambda := 1%float |} 1 [[(4, 1)]; []] [] None.

(** The same with two sessions of consumer 0 for content 4. *)
Definition two_sessions : St (H := Replay.platform) :=
  @Build_St Replay.platform 5 (5, 0) 3%float 2.5%float
    {| lambda := 1%float |} {| lambda := 1%float |} 2 [[(4, 2)]; []] [] None.

(** ** Outcomes and states of [main] *)

Section Vocabulary.
Context `{Platform}.

(** The state a loop body has reached, however it ended. *)
Definition ctl_state (r : Res Ctl) : St :=
  match r with
  | Ok (Next s) | Ok (Brk s) => s
  | Fault s | Timeout s => s
  end.

(** The calls made so far in an outcome of [main]. *)
Definition calls_of (o : Outcome) : list (Time * Call) :=
  match o with
  | Driven _ r => sched (state_of r)
  | _ => []
  end.

(** Whether [main] got as far as [Simulator::Run]. *)
Definition returned (o : Outcome) : bool :=
  match o with
  | Driven _ (Ok _) => true
  | _ => false
  end.

(** Whether a loop body ran to its end without fault, budget exhaustion or
    [break]. *)
Definition completes (r : Res Ctl) : bool :=
  match r with
  | Ok (Next _) => true
  | _ => false
  end.

(** The topology an outcome of [main] was driven on. *)
Definition topo_of (o : Outcome) : option Topo :=
  match o with
  | Driven T _ => Some T
  | _ => None
  end.

(** The calls a piece of [main] adds all satisfy [Q]. *)
Definition grows_by (Q : Time * Call → Prop) (s s' : St) : Prop :=
  ∃ l, sched s' = sched s ++ l ∧ Forall Q l.

(** The calls of the phase boundary: the coarse route removal at each of the
    infrastructure nodes [0 .. N-1], then the failure of the link between
    infrastructure node [N-1] and the producer, node [2N-1], all at the end
    of the initialization period. *)
Definition boundary (p : Params) (N : Z) : list (Time * Call) :=
  ((λ i, (Seconds (initialization_period_length p), RemoveRoute i "ndn:///prefix"))
     <$> seqZ 0 N)
  ++ [(Seconds (initialization_period_length p), FailLink (N - 1) (2 * N - 1))].

(** One connect, as both scheduling loops perform it: a consumer
    application and a content id are drawn, the flood is scheduled at the
    connect-time cursor, and the two session counters go up. *)
Definition connect_step (T : Topo) (s s' : St) : Prop :=
  ∃ app_indx consumer content_indx,
    0 ≤ app_indx < GetN (consumer_apps T)
    ∧ Get (consumer_apps T) app_indx = Some consumer
    ∧ sched s' = sched s
        ++ [(Seconds (connect_time s), FloodPacketWithSeq consumer content_indx 2)]
    ∧ num_connected s' = u32 (num_connected s + 1)
    ∧ connected_content s' = bump app_indx content_indx (connected_content s)
    ∧ rng_exp_dis s' = rng_exp_dis s.

(** The effect of one pass through the disconnection branch on the
    schedule and on the session table. *)
Definition disconnect_effect (N : Z) (T : Topo) (s s' : St) : Prop :=
  ∃ app_indx k first second m,
    0 ≤ app_indx < N - 1
    ∧ Get (consumer_apps T) app_indx = Some (consumer_app (app_indx + N))
    ∧ (app_indx, app_indx + N) ∈ links T
    ∧ Get (connected_content s) app_indx = Some m
    ∧ Get m k = Some (first, second)
    ∧ (second - 1 = 0 →
         sched s' = sched s
           ++ [(Seconds (disconnect_time s),
                RemoveRouteVia app_indx ("ndn:///prefix" +:+ to_string first)
                  (app_indx + N))]
         ∧ Get (connected_content s') app_indx = Some (delete (Z.to_nat k) m))
    ∧ (second - 1 ≠ 0 →
         sched s' = sched s
         ∧ Get (connected_content s') app_indx
           = Some (<[Z.to_nat k := (first, second - 1)]> m)).

(** The bookkeeping of a run in which only connects have happened: no
    scoped route removal has been scheduled, the disconnect distribution
    still has the rate it was constructed with, the connection counter is
    the number of connects (as a [uint32_t]), and every session count is the
    number of connects of that consumer for that content. *)
Record connects_only (T : Topo) (p : Params) (s : St) : Prop := {
  co_no_scoped : Forall (λ tc : Time * Call, is_scoped_removal tc.2 = false) (sched s);
  co_rate : rng_exp_dis s = {| lambda := disconnection_rate p |};
  co_count : num_connected s = u32 (floods (sched s));
  co_sessions : ∀ a k, 0 ≤ a < GetN (consumer_apps T) →
                  sessions (connected_content s) a k = connects T (sched s) a k;
  co_length : length (connected_content s) = length (consumer_apps T);
  co_sorted : Forall keys_sorted (connected_content s)
}.

End Vocabulary.

(** ** Further observations on the program *)

(** The producer application installed on node [n]. *)
Definition producer_app (n : Node) : App :=
  {| app_type := "ns3::ndn::Producer"; app_prefix := prefix; app_node := n |}.

Definition is_removal (c : Call) : bool :=
  match c with RemoveRoute _ _ => true | _ => false end.

(** The sum of the counts of one consumer's sessions. *)
Definition sum_counts (m : int_map) : Z := foldr (λ kv acc, kv.2 + acc) 0 m.

(** The sum of all session counts. *)
Definition total_sessions (cc : list int_map) : Z :=
  foldr (λ m acc, sum_counts m + acc) 0 cc.

(** Every session on record has a count of at least 1. *)
Definition counts_positive (cc : list int_map) : Prop :=
  Forall (Forall (λ kv : Z * Z, 1 ≤ kv.2)) cc.

(** A flood is issued through one of the consumer applications, for a
    content index in [uint32_t] range. *)
Definition consumer_flood (T : Topo) (tc : Time * Call) : Prop :=
  ∀ consumer seq hop, tc.2 = FloodPacketWithSeq consumer seq hop →
    consumer ∈ consumer_apps T ∧ 0 ≤ seq < 2 ^ 32.

(** The unscoped removal of the producer's prefix at node [i], at the end of
    the initialization period. *)
Definition removal_at (t : Time) (i : Z) : Time * Call :=
  (t, RemoveRoute i "ndn:///prefix").

Section Observations.
Context `{Platform}.

(** A piece of [main] that did not run into undefined behaviour. *)
Definition no_fault {A} (r : Res A) : Prop :=
  match r with Fault _ => False | _ => True end.

(** The consumer index the draw loop of lines 316-319 came up with. *)
Definition picked (r : Res (Z * St)) : option Z :=
  match r with Ok (a, _) => Some a | _ => None end.

(** The state the draw loop has reached, however it ended. *)
Definition picked_state (r : Res (Z * St)) : St :=
  match r with Ok (_, s) | Fault s | Timeout s => s end.

(** The time handed to [Simulator::Stop], if it was called. *)
Definition stop_of (o : Outcome) : option Time :=
  match o with
  | Driven _ r => stop_at (state_of r)
  | _ => None
  end.

(** Whether [main] ran into undefined behaviour. *)
Definition faulted (o : Outcome) : bool :=
  match o with
  | SetupFault | Driven _ (Fault _) => true
  | _ => false
  end.

(** A call scheduled for [Seconds(d)] with [d < horizon] as [double]s. *)
Definition before (horizon : double) (tc : Time * Call) : Prop :=
  ∃ d, tc.1 = Seconds d ∧ (d <? horizon)%float = true.

(** The connection counter is the total of the session table, as a
    [uint32_t]. *)
Definition counters_agree (s : St) : Prop :=
  num_connected s = u32 (total_sessions (connected_content s)).

(** The session array has a slot for every consumer application. *)
Definition slots_for (T : Topo) (s : St) : Prop :=
  GetN (consumer_apps T) ≤ Z.of_nat (length (connected_content s)).

(** Everything but the generator, the disconnect cursor and distribution,
    the counters and the schedule is as before. *)
Definition same_connect_side (s s' : St) : Prop :=
  connect_time s' = connect_time s
  ∧ rng_exp_con s' = rng_exp_con s
  ∧ content_dist s' = content_dist s
  ∧ stop_at s' = stop_at s
  ∧ length (connected_content s') = length (connected_content s).

End Observations.

(** * Properties *)

(** ** Scalars and counted loops *)

Lemma u32_small x : 0 ≤ x < 2 ^ 32 → u32 x = x.
Proof. intros Hx. unfold u32. by rewrite Z.mod_small. Qed.

Lemma u32_range x : 0 ≤ u32 x < 2 ^ 32.
Proof. unfold u32. apply Z.mod_pos_bound. lia. Qed.

Lemma to_int_small x : 0 ≤ x < 2 ^ 31 → to_int x = x.
Proof.
  intros Hx. unfold to_int. rewrite u32_small by lia.
  destruct (Z.ltb_spec x (2 ^ 31)); lia.
Qed.

Lemma umod_Some a b : b ≠ 0 → umod a b = Some (a mod b).
Proof. intros Hb. unfold umod. by destruct (Z.eqb_spec b 0). Qed.

Lemma Get_Some {A} (c : list A) i x : Get c i = Some x → 0 ≤ i ∧ c !! Z.to_nat i = Some x.
Proof.
  unfold Get. destruct (Z.leb_spec 0 i), (Z.ltb_spec i (Z.of_nat (length c))); naive_solver.
Qed.

Lemma Get_lookup {A} (c : list A) i : 0 ≤ i → Get c i = c !! Z.to_nat i.
Proof.
  intros Hi. unfold Get. destruct (Z.leb_spec 0 i); [|lia].
  destruct (Z.ltb_spec i (Z.of_nat (length c))); [done|].
  symmetry. apply lookup_ge_None. lia.
Qed.

Lemma Get_seqZ m n i : 0 ≤ i < n → Get (seqZ m n) i = Some (m + i).
Proof.
  intros Hi. rewrite Get_lookup by lia.
  rewrite lookup_seqZ_lt by lia. f_equal. lia.
Qed.

Lemma Get_fmap {A B} (f : A → B) (c : list A) i : Get (f <$> c) i = f <$> Get c i.
Proof.
  unfold Get. rewrite length_fmap.
  destruct (_ && _); [apply list_lookup_fmap|done].
Qed.

Lemma for_each_app {A} (l1 l2 : list Z) (body : Z → A → option A) a :
  for_each (l1 ++ l2) body a = for_each l1 body a ≫= for_each l2 body.
Proof.
  revert a. induction l1 as [|i l1 IH]; intros a; simpl; [done|].
  destruct (body i a); [apply IH|done].
Qed.

(** Invariant rule for a counted loop [for (i = 0; i < n; i++)]. *)
Lemma for_each_invariant {A} (P : Z → A → Prop) (body : Z → A → option A) (a : A) (n : Z) :
  0 ≤ n →
  P 0 a →
  (∀ i x, 0 ≤ i < n → P i x → ∃ y, body i x = Some y ∧ P (i + 1) y) →
  ∃ y, for_each (seqZ 0 n) body a = Some y ∧ P n y.
Proof.
  intros Hn H0 Hstep.
  assert (∀ k : nat, Z.of_nat k ≤ n →
            ∃ y, for_each (seqZ 0 (Z.of_nat k)) body a = Some y ∧ P (Z.of_nat k) y) as Hk.
  { induction k as [|k IH]; intros Hle.
    - exists a. by split.
    - destruct IH as (x & Hx & HP); [lia|].
      destruct (Hstep (Z.of_nat k) x) as (y & Hy & HPy); [lia|done|].
      exists y. rewrite seqZ_S, for_each_app, Hx. simpl.
      rewrite Z.add_0_l, Hy. split; [done|].
      by replace (Z.of_nat (S k)) with (Z.of_nat k + 1) by lia. }
  destruct (Hk (Z.to_nat n)) as (y & Hy & HP); [lia|].
  rewrite Z2Nat.id in Hy, HP by done. eauto.
Qed.

(** ** The topology [main] builds *)

Lemma build_topology_spec p N :
  1 ≤ N < 2 ^ 30 → ∃ T, build_topology p N = Some T ∧ topology_of p N T.
Proof.
  intros HN. unfold build_topology, GetN, Create, NodeContainer, Node.
  repeat first
    [ rewrite length_seqZ | rewrite Z2Nat.id by lia
    | rewrite (u32_small N) by lia | rewrite (u32_small (N - 1)) by lia ].
  replace (N + (N - 1)) with (2 * N - 1) by lia.
  assert (seqZ 0 N ++ seqZ N (N - 1) ++ seqZ (2 * N - 1) 1 = seqZ 0 (2 * N)) as Hnodes.
  { replace (2 * N) with (N + ((N - 1) + 1)) at 2 by lia.
    rewrite seqZ_app by lia. f_equal.
    rewrite seqZ_app by lia. do 2 f_equal; lia. }
  rewrite Hnodes.
  (* the attachment loop *)
  destruct (for_each_invariant
    (λ i '(ls, a2n, a2r),
       ls = ((λ i, (i, i + N)) <$> seqZ 0 i)
       ∧ (∀ j, 0 ≤ j < i → (a2n : gmap Z Z) !! j = Some (j + N))
       ∧ (∀ j, 0 ≤ j < i → (a2r : gmap Z Z) !! (j + N) = Some j))
    (λ i '(ls, a2n, a2r),
       a ← Get (seqZ 0 (2 * N)) i;
       b ← Get (seqZ 0 (2 * N)) (u32 (i + N));
       Some (ls ++ [(a, b)], <[to_int i := to_int (u32 (i + N))]> a2n,
             <[to_int (u32 (i + N)) := to_int i]> a2r))
    ([], ∅, ∅) N) as ([[ls a2n] a2r] & Hloop & Hls & Ha2n & Ha2r).
  { lia. }
  { split_and!; [done|intros; lia..]. }
  { intros i [[ls a2n] a2r] Hi (Hls & Ha2n & Ha2r).
    rewrite (u32_small (i + N)), !to_int_small, !Get_seqZ by lia. simpl.
    eexists. split; [done|]. split_and!.
    - replace (i + 1) with (Z.of_nat (S (Z.to_nat i))) by lia.
      rewrite seqZ_S, fmap_app, Z2Nat.id by lia. rewrite Hls. simpl.
      by rewrite !Z.add_0_l.
    - intros j Hj. destruct (decide (j = i)) as [->|Hne].
      + by rewrite lookup_insert_eq.
      + rewrite lookup_insert_ne by done. apply Ha2n. lia.
    - intros j Hj. destruct (decide (j = i)) as [->|Hne].
      + by rewrite lookup_insert_eq.
      + rewrite lookup_insert_ne by lia. apply Ha2r. lia. }
  rewrite Hloop. simpl.
  (* the infrastructure container *)
  destruct (for_each_invariant
    (λ i (acc : list Z), acc = seqZ 0 i)
    (λ i acc, n ← Get (seqZ 0 (2 * N)) i; Some (acc ++ [n])) [] N)
    as (infra & Hinfra & ->).
  { lia. }
  { done. }
  { intros i acc Hi ->. rewrite Get_seqZ by lia. simpl.
    eexists. split; [done|].
    replace (i + 1) with (Z.of_nat (S (Z.to_nat i))) by lia.
    by rewrite seqZ_S, Z2Nat.id, !Z.add_0_l by lia. }
  rewrite Hinfra. simpl.
  (* the consumer applications *)
  match goal with |- context [for_each (seqZ 0 (N - 1)) ?body []] =>
    destruct (for_each_invariant
      (λ i (acc : list App), acc = (consumer_app <$> seqZ N i)) body [] (N - 1))
      as (apps & Happs & ->)
  end.
  { lia. }
  { done. }
  { intros i acc Hi ->. rewrite Get_seqZ by lia. simpl.
    eexists. split; [done|].
    replace (i + 1) with (Z.of_nat (S (Z.to_nat i))) by lia.
    by rewrite seqZ_S, fmap_app, Z2Nat.id by lia. }
  rewrite Happs. simpl.
  assert (seqZ (2 * N - 1) 1 = [2 * N - 1]) as Hprod.
  { rewrite seqZ_cons by lia. by rewrite seqZ_nil by lia. }
  rewrite Hprod.
  eexists. split; [done|]. split; cbn [nodes num_infrastructure_nodes consumer_nodes
    producer_node infrastructure_nodes links stacks consumer_apps app_to_node
    access_to_router]; try done.
  unfold Install. f_equal.
  replace (seqZ N N) with (seqZ N (N - 1) ++ [2 * N - 1]); [by rewrite fmap_app|].
  rewrite <- Hprod. replace (2 * N - 1) with (N + (N - 1)) by lia.
  rewrite <- seqZ_app by lia. f_equal. lia.
Qed.

Lemma filter_eq_NoDup (n : Z) (l : list Z) :
  NoDup l → filter (λ m, m = n) l = if bool_decide (n ∈ l) then [n] else [].
Proof.
  induction 1 as [|m l Hm Hl IH]; [done|].
  rewrite filter_cons, IH. destruct (decide (m = n)) as [->|Hne].
  - rewrite (bool_decide_eq_true_2 (n ∈ n :: l)) by apply list_elem_of_here.
    by rewrite (bool_decide_eq_false_2 (n ∈ l)) by done.
  - destruct (decide (n ∈ l)) as [Hin|Hin].
    + rewrite (bool_decide_eq_true_2 (n ∈ m :: l)) by by apply list_elem_of_further.
      by rewrite bool_decide_eq_true_2 by done.
    + rewrite (bool_decide_eq_false_2 (n ∈ m :: l)).
      * by rewrite bool_decide_eq_false_2 by done.
      * rewrite not_elem_of_cons. by split.
Qed.

Lemma store_of_tagged (c : ContentStoreConfig) (l : list Z) (n : Z) :
  snd <$> filter (λ x : Z * ContentStoreConfig, x.1 = n) ((λ m, (m, c)) <$> l)
  = (λ _, c) <$> filter (λ m, m = n) l.
Proof.
  induction l as [|m l IH]; [done|].
  rewrite fmap_cons, !filter_cons. simpl.
  destruct (decide (m = n)); rewrite ?fmap_cons, IH; done.
Qed.

(** C3. Content-store capacity follows the node's role: on every
    infrastructure (router) node exactly one store is installed, an LRU store
    whose [MaxSize] is the configured [cache_size]; on every consumer node
    and on the producer node exactly one store is installed, an LRU store
    whose [MaxSize] is the size of the content universe, [num_contents]. *)
Theorem content_store_capacity_by_role (p : Params) (N : Z) (T : Topo) (n : Node) :
  1 ≤ N < 2 ^ 30 →
  build_topology p N = Some T →
  (n ∈ infrastructure_nodes T →
     store_of T n = [{| cs_type := "ns3::ndn::cs::Lru"; cs_attr := "MaxSize";
                        cs_value := to_string (cache_size p) |}])
  ∧ (n ∈ consumer_nodes T ∨ n ∈ producer_node T →
     store_of T n = [{| cs_type := "ns3::ndn::cs::Lru"; cs_attr := "MaxSize";
                        cs_value := to_string (num_contents p) |}]).
Proof.
  intros HN Hb. destruct (build_topology_spec p N HN) as (T' & Hb' & HT).
  rewrite Hb in Hb'. injection Hb' as <-. destruct HT.
  unfold store_of. rewrite top_stacks0, filter_app, fmap_app, !store_of_tagged.
  rewrite !filter_eq_NoDup by apply NoDup_seqZ.
  rewrite top_infrastructure0, top_consumers0, top_producer0.
  split.
  - intros Hin. rewrite bool_decide_eq_true_2 by done.
    rewrite bool_decide_eq_false_2; [done|].
    rewrite elem_of_seqZ in Hin |- *. lia.
  - intros Hin.
    rewrite bool_decide_eq_false_2, bool_decide_eq_true_2; [done| |].
    + rewrite elem_of_seqZ. destruct Hin as [Hin|Hin].
      * rewrite elem_of_seqZ in Hin. lia.
      * apply list_elem_of_singleton in Hin. lia.
    + rewrite elem_of_seqZ. destruct Hin as [Hin|Hin].
      * rewrite elem_of_seqZ in Hin. lia.
      * apply list_elem_of_singleton in Hin. lia.
Qed.

Lemma content_store_capacity_by_role_witness :
  let T := default (Build_Topo [] 0 ∅ ∅ [] [] [] [] [] [] []) (build_topology Replay.params 3) in
  store_of T 1 = [lru 2] ∧ store_of T 4 = [lru 5] ∧ store_of T 5 = [lru 5].
Proof.
  intros T.
  assert (build_topology Replay.params 3 = Some T) as HT by (vm_compute; reflexivity).
  split_and!.
  - apply (content_store_capacity_by_role Replay.params 3 T 1); [lia|exact HT|].
    vm_compute. set_solver.
  - apply (content_store_capacity_by_role Replay.params 3 T 4); [lia|exact HT|].
    left. vm_compute. set_solver.
  - apply (content_store_capacity_by_role Replay.params 3 T 5); [lia|exact HT|].
    right. vm_compute. set_solver.
Defined.

Section Program.
Context `{Platform}.

(** C8. With fewer than 10 command-line arguments the program prints
    the message naming the argument count and exits with status 0, before
    any topology is built or any event is scheduled. *)
Theorem too_few_arguments_exit (argc : Z) (p : Params) (N seed : Z) (fuel : nat) :
  argc < 10 →
  main argc p N seed fuel
  = Exited ("Invalid number of parameters: " +:+ to_string argc +:+ ", Expecting 10" +:+ endl) 0
  ∧ topo_of (main argc p N seed fuel) = None
  ∧ calls_of (main argc p N seed fuel) = [].
Proof.
  intros Hargc. unfold main. by destruct (Z.ltb_spec argc 10); [|lia].
Qed.

End Program.

Lemma too_few_arguments_exit_witness :
  main (H := Replay.platform) 3 Replay.params 3 7 100
  = Exited ("Invalid number of parameters: 3, Expecting 10" +:+ endl) 0.
Proof.
  apply (too_few_arguments_exit (H := Replay.platform) 3 Replay.params 3 7 100). lia.
Defined.

(** ** What the scheduling loops preserve *)

Section Loops.
Context `{Platform}.

Lemma do_while_invariant (P : St → Prop) fuel body cond s :
  (∀ s, P s → P (state_of (body s))) →
  P s → P (state_of (do_while fuel body cond s)).
Proof.
  intros Hbody. revert s. induction fuel as [|fuel IH]; intros s Hs; simpl.
  - specialize (Hbody s Hs). destruct (body s) as [s'| |]; [|done..].
    by destruct (cond s').
  - specialize (Hbody s Hs). destruct (body s) as [s'| |]; [|done..].
    destruct (cond s'); [by apply IH|done].
Qed.

Lemma while_do_invariant (P : St → Prop) fuel cond body s :
  (∀ f s, P s → P (ctl_state (body f s))) →
  P s → P (state_of (while_do fuel cond body s)).
Proof.
  intros Hbody. revert s. induction fuel as [|fuel IH]; intros s Hs; simpl.
  - by destruct (cond s).
  - destruct (cond s); [|done]. specialize (Hbody fuel s Hs).
    destruct (body fuel s) as [[s'|s']| |]; [by apply IH|done..].
Qed.

(** A loop whose test is the literal [0] leaves without running its body. *)
Lemma while_do_false fuel body s : while_do fuel (λ _, false) body s = Ok s.
Proof. by destruct fuel. Qed.

(** Invariant rule for the event set-up of [main]: what holds initially
    and survives each piece of it holds wherever the set-up has got to. *)
Lemma schedule_events_invariant (P : St → Prop) T p seed fuel :
  P (initial T p seed) →
  (∀ s, P s → P (state_of (connect_body T s))) →
  (∀ s, P s → P (state_of (disconnect_producer T p s))) →
  (∀ s, P s → P (enter_observation p s)) →
  (∀ f s, P s → P (ctl_state (observe_body T p f s))) →
  (∀ t s, P s → P (Stop t s)) →
  P (state_of (schedule_events T p seed fuel)).
Proof.
  intros H0 Hcon Hprod Hent Hobs Hstop. unfold schedule_events.
  pose proof (do_while_invariant P fuel (connect_body T)
    (λ s, (connect_time s <? initialization_period_length p)%float)
    (initial T p seed) Hcon H0) as H1.
  destruct (do_while _ _ _ _) as [s1| |]; [|done..]. simpl in H1.
  pose proof (Hprod s1 H1) as H2.
  destruct (disconnect_producer T p s1) as [s2| |]; [|done..]. simpl in H2.
  pose proof (while_do_invariant P fuel
    (λ s, (connect_time s <?
             observation_period_length p + initialization_period_length p)%float)
    (observe_body T p) (enter_observation p s2) Hobs (Hent s2 H2)) as H3.
  destruct (while_do _ _ _ _) as [s3| |]; [|done..]. simpl in H3. simpl.
  by apply Hstop.
Qed.

Lemma grows_by_refl Q s : grows_by Q s s.
Proof. exists []. by rewrite app_nil_r. Qed.

Lemma grows_by_trans Q s1 s2 s3 : grows_by Q s1 s2 → grows_by Q s2 s3 → grows_by Q s1 s3.
Proof.
  intros (l1 & E1 & F1) (l2 & E2 & F2). exists (l1 ++ l2).
  rewrite E2, E1, app_assoc. split; [done|]. by apply Forall_app.
Qed.

Lemma grows_by_snoc (Q : Time * Call → Prop) s s' tc :
  sched s' = sched s ++ [tc] → Q tc → grows_by Q s s'.
Proof. intros E HQ. exists [tc]. split; [done|]. by constructor. Qed.

Lemma grows_by_same Q s s' : sched s' = sched s → grows_by Q s s'.
Proof. intros E. exists []. by rewrite app_nil_r. Qed.

Lemma connect_body_grows T s : grows_by flood2 s (state_of (connect_body T s)).
Proof.
  unfold connect_body. destruct (rnd_gen (gen s)) as [r g1].
  destruct (umod _ _) as [app_indx|]; [|apply grows_by_refl].
  destruct (Get _ _) as [consumer|]; [|apply grows_by_refl].
  destruct (GetNextSeq _) as [c z1]. destruct (exponential _ _) as [gap g2].
  eapply grows_by_snoc; [done|]. by eexists _, _.
Qed.

Lemma observe_body_grows T p f s : grows_by flood2 s (ctl_state (observe_body T p f s)).
Proof.
  unfold observe_body. destruct (rnd_gen (gen s)) as [r g1].
  destruct (umod _ _) as [app_indx|]; [|apply grows_by_refl].
  destruct (Get _ _) as [consumer|]; [|apply grows_by_refl].
  destruct (GetNextSeq _) as [c z1]. destruct (exponential _ _) as [gap g2].
  rewrite while_do_false. eapply grows_by_snoc; [done|]. by eexists _, _.
Qed.

Lemma do_while_grows Q fuel body cond s :
  (∀ s, grows_by Q s (state_of (body s))) →
  grows_by Q s (state_of (do_while fuel body cond s)).
Proof.
  intros Hbody. apply (do_while_invariant (grows_by Q s)); [|apply grows_by_refl].
  intros s' Hs'. eapply grows_by_trans; [done|apply Hbody].
Qed.

Lemma while_do_grows Q fuel cond body s :
  (∀ f s, grows_by Q s (ctl_state (body f s))) →
  grows_by Q s (state_of (while_do fuel cond body s)).
Proof.
  intros Hbody. apply (while_do_invariant (grows_by Q s)); [|apply grows_by_refl].
  intros f s' Hs'. eapply grows_by_trans; [done|apply Hbody].
Qed.

End Loops.

(** ** The calls [main] schedules *)

Section Schedule.
Context `{Platform}.

Lemma Forall_grows (Q R : Time * Call → Prop) s s' :
  grows_by Q s s' → (∀ tc, Q tc → R tc) → Forall R (sched s) → Forall R (sched s').
Proof.
  intros (l & -> & Hl) HQR Hs. apply Forall_app. split; [done|].
  eapply Forall_impl; [exact Hl|done].
Qed.

Lemma disconnect_producer_grows T p s :
  grows_by boundary_call s (state_of (disconnect_producer T p s)).
Proof.
  unfold disconnect_producer.
  assert (∀ idx l, ∃ l',
    from_option (λ l2, l2 = l ++ l' ∧ Forall boundary_call l') True
      (for_each idx
         (λ indx l,
            nd ← Get (nodes T) indx;
            Some (l ++ [(Seconds (initialization_period_length p),
                         RemoveRoute nd ("ndn://" +:+ prefix))])) l)) as Hloop.
  { induction idx as [|i idx IH]; intros l; simpl.
    - exists []. by rewrite app_nil_r.
    - destruct (Get (nodes T) i) as [nd|]; simpl; [|by exists []].
      destruct (IH (l ++ [(Seconds (initialization_period_length p),
                           RemoveRoute nd ("ndn://" +:+ prefix))])) as (l' & Hl').
      destruct (for_each idx _ _) as [l2|]; simpl in *; [|by exists []].
      destruct Hl' as [-> Hl']. eexists. rewrite <- app_assoc. split; [done|].
      constructor; [|done]. left. by eexists _, _. }
  destruct (Hloop (seqZ 0 (num_infrastructure_nodes T)) (sched s)) as (l' & Hl').
  destruct (for_each _ _ _) as [l2|]; simpl in *; [|apply grows_by_refl].
  destruct Hl' as [-> Hl'].
  destruct (Get (nodes T) (u32 _)) as [a|]; [|by exists l'].
  destruct (Get (nodes T) (u32 _)) as [b|]; [|by exists l'].
  exists (l' ++ [(Seconds (initialization_period_length p), FailLink a b)]).
  simpl. rewrite <- app_assoc. split; [done|].
  apply Forall_app. split; [done|]. constructor; [|done]. right. by eexists _, _.
Qed.

(** C7. Every flood retrieval the driver schedules, in the
    initialization phase and in the observation phase alike, carries the
    hop budget 2; the call passes the application, the content id and this
    budget, and nothing else that could bound the flood. *)
Theorem flood_hop_budget_is_2 (argc : Z) (p : Params) (N seed : Z) (fuel : nat) :
  Forall hop_budget_2 (calls_of (main argc p N seed fuel)).
Proof.
  unfold main. destruct (argc <? 10); [constructor|].
  destruct (build_topology p N) as [T|]; [|constructor]. simpl.
  apply (schedule_events_invariant (λ s, Forall hop_budget_2 (sched s))).
  - constructor.
  - intros s. apply Forall_grows with (Q := flood2); [apply connect_body_grows|].
    intros tc (c & q & E) c' q' h E'. congruence.
  - intros s. apply Forall_grows with (Q := boundary_call);
      [apply disconnect_producer_grows|].
    intros tc [(n & name & E)|(a & b & E)] c' q' h E'; congruence.
  - done.
  - intros f s. apply Forall_grows with (Q := flood2); [apply observe_body_grows|].
    intros tc (c & q & E) c' q' h E'. congruence.
  - done.
Qed.

End Schedule.

Section Shape.
Context `{Platform}.

Lemma umod_range a b r : 0 ≤ b → umod a b = Some r → 0 ≤ r < b.
Proof.
  unfold umod. destruct (Z.eqb_spec b 0); [done|].
  intros Hb [= <-]. apply Z.mod_pos_bound. lia.
Qed.

Lemma GetN_nonneg {A} (c : list A) : 0 ≤ GetN c.
Proof. unfold GetN. apply u32_range. Qed.

Lemma connect_body_cases T s :
  connect_body T s = Fault s ∨ ∃ s', connect_body T s = Ok s' ∧ connect_step T s s'.
Proof.
  unfold connect_body. destruct (rnd_gen (gen s)) as [r g1].
  destruct (umod _ _) as [app_indx|] eqn:Hmod; [|by left].
  destruct (Get _ _) as [consumer|] eqn:Hget; [|by left].
  destruct (GetNextSeq _) as [c z1]. destruct (exponential _ _) as [gap g2].
  right. eexists. split; [done|]. exists app_indx, consumer, (u32 c).
  split_and!; try done; eapply umod_range; eauto using GetN_nonneg.
Qed.

Lemma observe_body_cases T p f s :
  observe_body T p f s = Fault s
  ∨ ∃ s', observe_body T p f s = Ok (Next s') ∧ connect_step T s s'.
Proof.
  unfold observe_body. destruct (rnd_gen (gen s)) as [r g1].
  destruct (umod _ _) as [app_indx|] eqn:Hmod; [|by left].
  destruct (Get _ _) as [consumer|] eqn:Hget; [|by left].
  destruct (GetNextSeq _) as [c z1]. destruct (exponential _ _) as [gap g2].
  rewrite while_do_false.
  right. eexists. split; [done|]. exists app_indx, consumer, (u32 c).
  split_and!; try done; eapply umod_range; eauto using GetN_nonneg.
Qed.

Lemma disconnect_producer_spec T p N s :
  1 ≤ N < 2 ^ 30 → topology_of p N T →
  disconnect_producer T p s = Ok (with_sched (sched s ++ boundary p N) s).
Proof.
  intros HN HT. destruct HT. unfold disconnect_producer.
  rewrite top_N0, top_nodes0.
  match goal with |- context [for_each (seqZ 0 N) ?body (sched s)] =>
    destruct (for_each_invariant
      (λ i l, l = sched s
         ++ ((λ i, (Seconds (initialization_period_length p), RemoveRoute i "ndn:///prefix"))
               <$> seqZ 0 i)) body (sched s) N) as (l & Hl & ->)
  end.
  { lia. }
  { by rewrite app_nil_r. }
  { intros i l Hi ->. rewrite Get_seqZ by lia. simpl. eexists. split; [done|].
    replace (i + 1) with (Z.of_nat (S (Z.to_nat i))) by lia.
    rewrite seqZ_S, fmap_app, Z2Nat.id, app_assoc by lia. simpl.
    by rewrite !Z.add_0_l. }
  rewrite Hl. rewrite (u32_small (N - 1)) by lia.
  rewrite to_int_small by lia. unfold map_at.
  rewrite top_app_to_node0 by lia. simpl.
  rewrite u32_small by lia. rewrite !Get_seqZ by lia.
  unfold boundary. rewrite app_assoc, !Z.add_0_l.
  by replace (N - 1 + N) with (2 * N - 1) by lia.
Qed.

Lemma do_while_first Q fuel body cond s s1 :
  body s = Ok s1 →
  (∀ s, grows_by Q s (state_of (body s))) →
  grows_by Q s1 (state_of (do_while fuel body cond s)).
Proof.
  intros Hs1 Hbody. destruct fuel as [|fuel]; simpl; rewrite Hs1.
  - destruct (cond s1); apply grows_by_refl.
  - destruct (cond s1); [by apply do_while_grows|apply grows_by_refl].
Qed.

(** Whatever the event set-up has done is a continuation of its start. *)
Lemma schedule_events_grows T p seed fuel s1 :
  connect_body T (initial T p seed) = Ok s1 →
  grows_by (λ _, True) s1 (state_of (schedule_events T p seed fuel)).
Proof.
  intros Hs1. unfold schedule_events.
  assert (∀ (Q : Time * Call → Prop) s s', grows_by Q s s' → grows_by (λ _, True) s s')
    as Hweak.
  { intros Q s s' (l & E & _). exists l. split; [done|]. by apply Forall_true. }
  pose proof (do_while_first flood2 fuel (connect_body T)
    (λ s, (connect_time s <? initialization_period_length p)%float)
    (initial T p seed) s1 Hs1 (connect_body_grows T)) as H1.
  apply Hweak in H1.
  destruct (do_while _ _ _ _) as [s2| |]; [|done..]. simpl in H1.
  pose proof (Hweak _ _ _ (disconnect_producer_grows T p s2)) as H2.
  destruct (disconnect_producer T p s2) as [s3| |];
    [|by eapply grows_by_trans..]. simpl in H2.
  pose proof (Hweak _ _ _ (while_do_grows flood2 fuel
    (λ s, (connect_time s <?
             observation_period_length p + initialization_period_length p)%float)
    (observe_body T p) (enter_observation p s3) (observe_body_grows T p))) as H3.
  assert (grows_by (λ _, True) s1 (enter_observation p s3)) as H13.
  { eapply grows_by_trans; [exact H1|]. eapply grows_by_trans; [exact H2|].
    by apply grows_by_same. }
  destruct (while_do _ _ _ _) as [s4| |]; [|by eapply grows_by_trans..].
  simpl in *. eapply grows_by_trans; [exact H13|].
  eapply grows_by_trans; [exact H3|]. by apply grows_by_same.
Qed.

Lemma Get_consumer_apps T p N i :
  2 ≤ N < 2 ^ 30 → topology_of p N T → 0 ≤ i < N - 1 →
  GetN (consumer_apps T) = N - 1
  ∧ Get (consumer_apps T) i = Some (consumer_app (N + i)).
Proof.
  intros HN HT Hi. destruct HT. rewrite top_apps0. split.
  - unfold GetN. rewrite length_fmap, length_seqZ, Z2Nat.id by lia.
    apply u32_small. lia.
  - rewrite Get_fmap, Get_seqZ by lia. done.
Qed.

Lemma Get_consumer_apps_at T p N i :
  1 ≤ N < 2 ^ 30 → topology_of p N T → 0 ≤ i < N - 1 →
  Get (consumer_apps T) i = Some (consumer_app (i + N)).
Proof.
  intros HN HT Hi. rewrite (top_apps _ _ _ HT), Get_fmap, Get_seqZ by lia.
  simpl. do 2 f_equal. lia.
Qed.

(** C9. Whenever the program gets past its argument check, on a
    topology of at least two nodes (so that there is a consumer), the first
    call it schedules is a connect flood that fires at [Seconds(0.2)]: the
    initialization loop is a do-while, so this happens whatever the length
    of the initialization period, also when it is 0.2 or less. *)
Theorem first_connect_at_0_2 (argc : Z) (p : Params) (N seed : Z) (fuel : nat) :
  10 ≤ argc → 2 ≤ N < 2 ^ 30 →
  ∃ rest,
    calls_of (main argc p N seed fuel)
    = (Seconds 0.2%float,
       FloodPacketWithSeq
         (consumer_app (N + (rnd_gen (mt_seed seed)).1 mod (N - 1)))
         (u32 (GetNextSeq (zipf_init (num_contents p) 0 (zipf_exponent p))).1)
         2) :: rest.
Proof.
  intros Hargc HN. unfold main. destruct (Z.ltb_spec argc 10); [lia|].
  destruct (build_topology_spec p N) as (T & -> & HT); [lia|]. simpl.
  assert (∃ s1, connect_body T (initial T p seed) = Ok s1
    ∧ sched s1 = [(Seconds 0.2%float,
       FloodPacketWithSeq
         (consumer_app (N + (rnd_gen (mt_seed seed)).1 mod (N - 1)))
         (u32 (GetNextSeq (zipf_init (num_contents p) 0 (zipf_exponent p))).1)
         2)]) as (s1 & Hs1 & Hsched).
  { unfold connect_body. simpl.
    destruct (rnd_gen (mt_seed seed)) as [r g1]. simpl.
    assert (0 ≤ r mod (N - 1) < N - 1) as Hr by (apply Z.mod_pos_bound; lia).
    destruct (Get_consumer_apps T p N (r mod (N - 1)) HN HT Hr) as [HGetN HGet].
    rewrite HGetN, umod_Some, HGet by lia.
    destruct (GetNextSeq _) as [c z1]. destruct (exponential _ _) as [gap g2].
    eexists. split; [done|]. done. }
  destruct (schedule_events_grows T p seed fuel s1 Hs1) as (l & -> & _).
  rewrite Hsched. by eexists.
Qed.

End Shape.

Lemma first_connect_at_0_2_witness :
  ∃ rest,
    calls_of (main (H := Replay.platform) 10 Replay.short_params 3 7 100)
    = (200, FloodPacketWithSeq (consumer_app 3) 0 2) :: rest.
Proof.
  exact (first_connect_at_0_2 (H := Replay.platform) 10 Replay.short_params 3 7 100
           ltac:(lia) ltac:(lia)).
Defined.

Section Boundary.
Context `{Platform}.

(** The calls of a run that reached [Simulator::Run]: the connect floods of
    the initialization period, the phase boundary, the connect floods of
    the observation period. *)
Lemma schedule_events_complete T p N seed fuel s :
  1 ≤ N < 2 ^ 30 → topology_of p N T →
  schedule_events T p seed fuel = Ok s →
  ∃ l1 l2, sched s = l1 ++ boundary p N ++ l2 ∧ Forall flood2 l1 ∧ Forall flood2 l2.
Proof.
  intros HN HT. unfold schedule_events.
  pose proof (do_while_grows flood2 fuel (connect_body T)
    (λ s, (connect_time s <? initialization_period_length p)%float)
    (initial T p seed) (connect_body_grows T)) as (l1 & E1 & F1).
  destruct (do_while _ _ _ _) as [s1| |]; [|done..]. simpl in E1.
  rewrite (disconnect_producer_spec T p N s1 HN HT).
  pose proof (while_do_grows flood2 fuel
    (λ s, (connect_time s <?
             observation_period_length p + initialization_period_length p)%float)
    (observe_body T p)
    (enter_observation p (with_sched (sched s1 ++ boundary p N) s1))
    (observe_body_grows T p)) as (l2 & E2 & F2).
  destruct (while_do _ _ _ _) as [s3| |]; [|done..]. simpl in E2.
  intros [= <-]. exists l1, l2. simpl. rewrite E2, E1. by rewrite <- app_assoc.
Qed.

(** The calls of a run, wherever it has got to. *)
Lemma schedule_events_partial T p N seed fuel :
  1 ≤ N < 2 ^ 30 → topology_of p N T →
  ∃ l1 l2, Forall flood2 l1 ∧ Forall flood2 l2
    ∧ (sched (state_of (schedule_events T p seed fuel)) = l1
       ∨ sched (state_of (schedule_events T p seed fuel)) = l1 ++ boundary p N ++ l2).
Proof.
  intros HN HT. unfold schedule_events.
  pose proof (do_while_grows flood2 fuel (connect_body T)
    (λ s, (connect_time s <? initialization_period_length p)%float)
    (initial T p seed) (connect_body_grows T)) as (l1 & E1 & F1).
  simpl in E1.
  destruct (do_while _ _ _ _) as [s1| |]; [|exists l1, []; split_and!; eauto..].
  simpl in E1. rewrite (disconnect_producer_spec T p N s1 HN HT).
  pose proof (while_do_grows flood2 fuel
    (λ s, (connect_time s <?
             observation_period_length p + initialization_period_length p)%float)
    (observe_body T p)
    (enter_observation p (with_sched (sched s1 ++ boundary p N) s1))
    (observe_body_grows T p)) as (l2 & E2 & F2).
  exists l1, l2. split_and!; [done..|]. right.
  destruct (while_do _ _ _ _) as [s3| |]; simpl in *; rewrite E2, E1;
    by rewrite <- app_assoc.
Qed.

Lemma filter_link_flood2 (l : list (Time * Call)) :
  Forall flood2 l → filter (λ tc, is_link_call tc.2) l = [].
Proof.
  induction 1 as [|tc l (c & q & E) Hl IH]; [done|].
  rewrite filter_cons, IH. by rewrite E.
Qed.

Lemma filter_link_boundary p N :
  filter (λ tc, is_link_call tc.2) (boundary p N)
  = [(Seconds (initialization_period_length p), FailLink (N - 1) (2 * N - 1))].
Proof.
  unfold boundary. rewrite filter_app.
  assert (∀ l : list Z,
    filter (λ tc : Time * Call, is_link_call tc.2)
      ((λ i, (Seconds (initialization_period_length p), RemoveRoute i "ndn:///prefix"))
         <$> l) = []) as Hrm.
  { induction l as [|i l IH]; [done|].
    by rewrite fmap_cons, filter_cons, IH. }
  by rewrite Hrm.
Qed.

(** C10. Among all the calls a run schedules there is exactly one that
    changes the status of a link: the failure, at the end of the
    initialization period, of the link between the last infrastructure node
    and the producer.  No other link is failed and no [UpLink] is ever
    scheduled; a run cut short before the phase boundary has scheduled no
    link call at all. *)
Theorem single_link_failure (argc : Z) (p : Params) (N seed : Z) (fuel : nat) :
  10 ≤ argc → 2 ≤ N < 2 ^ 30 →
  let run := main argc p N seed fuel in
  let failure :=
    (Seconds (initialization_period_length p), FailLink (N - 1) (2 * N - 1)) in
  let link_calls := filter (λ tc, is_link_call tc.2) (calls_of run) in
  (∃ T, topo_of run = Some T
        ∧ (N - 1, 2 * N - 1) ∈ links T ∧ producer_node T = [2 * N - 1])
  ∧ (link_calls = [] ∨ link_calls = [failure])
  ∧ (returned run = true → link_calls = [failure]).
Proof.
  intros Hargc HN. unfold main. destruct (Z.ltb_spec argc 10); [lia|].
  destruct (build_topology_spec p N) as (T & -> & HT); [lia|].
  simpl. split_and!.
  - exists T. split; [done|]. destruct HT. split; [|done].
    rewrite top_links0. apply list_elem_of_fmap.
    exists (N - 1). split; [f_equal; lia|]. apply elem_of_seqZ. lia.
  - destruct (schedule_events_partial T p N seed fuel) as (l1 & l2 & F1 & F2 & [->| ->]);
      [lia|done| |].
    + left. by apply filter_link_flood2.
    + right.
      rewrite !filter_app, (filter_link_flood2 l1), (filter_link_flood2 l2),
        filter_link_boundary by done.
      done.
  - destruct (schedule_events T p seed fuel) as [s| |] eqn:Hs; [|done..]. intros _.
    destruct (schedule_events_complete T p N seed fuel s) as (l1 & l2 & E & F1 & F2);
      [lia|done|done|].
    simpl. rewrite E.
    rewrite !filter_app, (filter_link_flood2 l1), (filter_link_flood2 l2),
      filter_link_boundary by done.
    done.
Qed.

End Boundary.

Lemma single_link_failure_witness :
  filter (λ tc, is_link_call tc.2)
    (calls_of (main (H := Replay.platform) 10 Replay.params 3 7 100))
  = [(1000, FailLink 2 5)].
Proof.
  apply (single_link_failure (H := Replay.platform) 10 Replay.params 3 7 100);
    [lia|lia|vm_compute; reflexivity].
Defined.

(** ** The scheduler: time order with FIFO tie-break *)

Lemma enqueue_sublist e q : q `sublist_of` enqueue e q.
Proof.
  induction q as [|e' q IH]; simpl.
  - apply sublist_nil_l.
  - destruct (fire_time e <? fire_time e').
    + by apply sublist_cons.
    + by apply sublist_skip.
Qed.

Lemma enqueue_elem_of x e q : x ∈ enqueue e q → x = e ∨ x ∈ q.
Proof.
  induction q as [|e' q IH]; simpl.
  - rewrite list_elem_of_singleton. by left.
  - destruct (fire_time e <? fire_time e').
    + rewrite elem_of_cons. tauto.
    + rewrite !elem_of_cons. tauto.
Qed.

Lemma enqueue_sorted e q :
  StronglySorted no_later q → StronglySorted no_later (enqueue e q).
Proof.
  induction 1 as [|e' q Hq IH Hall]; simpl.
  - repeat constructor.
  - destruct (Z.ltb_spec (fire_time e) (fire_time e')) as [Hlt|Hge].
    + constructor; [by constructor|]. constructor; [unfold no_later; lia|].
      eapply Forall_impl; [exact Hall|]. unfold no_later. intros; lia.
    + constructor; [done|]. apply Forall_forall. intros x Hx.
      apply enqueue_elem_of in Hx as [->|Hx]; [done|].
      by eapply Forall_forall in Hall.
Qed.

(** Nothing enters the queue before what is already due. *)
Lemma enqueue_not_before t e q :
  t ≤ fire_time e → Forall (λ x, t ≤ fire_time x) q →
  Forall (λ x, t ≤ fire_time x) (enqueue e q).
Proof.
  intros He Hq. apply Forall_forall. intros x Hx.
  apply enqueue_elem_of in Hx as [->|Hx]; [done|]. by eapply Forall_forall in Hq.
Qed.

Lemma filter_none {A} (P : A → Prop) `{!∀ x, Decision (P x)} (l : list A) :
  Forall (λ x, ¬ P x) l → filter P l = [].
Proof.
  induction 1 as [|x l Hx Hl IH]; [done|].
  by rewrite filter_cons, decide_False, IH by done.
Qed.

(** FIFO: among the events of any one timestamp, a new event comes last. *)
Lemma enqueue_fifo t e q :
  StronglySorted no_later q →
  filter (fires_at t) (enqueue e q)
  = filter (fires_at t) q ++ filter (fires_at t) [e].
Proof.
  induction 1 as [|e' q Hq IH Hall]; simpl; [done|].
  destruct (Z.ltb_spec (fire_time e) (fire_time e')) as [Hlt|Hge].
  - rewrite (filter_cons _ e), (filter_cons _ e), filter_nil.
    destruct (decide (fires_at t e)) as [Ht|Ht]; [|by rewrite app_nil_r].
    assert (filter (fires_at t) (e' :: q) = []) as ->; [|done].
    apply filter_none. unfold fires_at in *. constructor; [lia|].
    eapply Forall_impl; [exact Hall|]. unfold no_later. simpl. intros; lia.
  - rewrite !(filter_cons _ e'), IH. by destruct (decide (fires_at t e')).
Qed.

Lemma schedule_all_spec now reqs q q' :
  schedule_all now reqs q = Some q' →
  StronglySorted no_later q →
  StronglySorted no_later q'
  ∧ q `sublist_of` q'
  ∧ (Forall (λ x, now ≤ fire_time x) q → Forall (λ x, now ≤ fire_time x) q')
  ∧ ∀ t, filter (fires_at t) q'
         = filter (fires_at t) q ++ filter (fires_at t) (event_of <$> reqs).
Proof.
  revert q. induction reqs as [|[t c] reqs IH]; intros q; simpl.
  - intros [= <-] Hq. split_and!; [done..|]. intros t. by rewrite app_nil_r.
  - unfold schedule. destruct (Z.ltb_spec t 0); [done|].
    destruct (Z.ltb_spec t now); [done|]. simpl. intros Hq' Hq.
    destruct (IH _ Hq' (enqueue_sorted _ _ Hq)) as (Hs & Hsub & Hnow & Hfifo).
    split_and!.
    + done.
    + etrans; [apply enqueue_sublist|done].
    + intros Hall. apply Hnow. by apply enqueue_not_before.
    + intros t'. rewrite Hfifo, enqueue_fifo, <- app_assoc by done.
      f_equal. change (event_of (t, c)) with {| fire_time := t; action := c |}.
      rewrite !(filter_cons _ {| fire_time := t; action := c |}), filter_nil.
      by destruct (decide _).
Qed.

(** The queue [Simulator::Run] starts from is in time order, and the events
    of each timestamp are in it in the order [main] scheduled them. *)
Lemma load_spec calls q :
  load calls = Some q →
  StronglySorted no_later q
  ∧ ∀ t, filter (fires_at t) q = filter (fires_at t) (event_of <$> calls).
Proof.
  intros Hload. destruct (schedule_all_spec 0 calls [] q Hload) as (Hs & _ & _ & Hf).
  { constructor. }
  split; [done|]. intros t. by rewrite Hf.
Qed.

Lemma filter_sublist {A} (P : A → Prop) `{!∀ x, Decision (P x)} (l1 l2 : list A) :
  l1 `sublist_of` l2 → filter P l1 `sublist_of` filter P l2.
Proof.
  induction 1 as [|x l1 l2 Hl IH|x l1 l2 Hl IH]; [done| |].
  - rewrite !filter_cons. destruct (decide (P x)); [by apply sublist_skip|done].
  - rewrite filter_cons. destruct (decide (P x)); [by apply sublist_cons|done].
Qed.

Lemma filter_all {A} (P : A → Prop) `{!∀ x, Decision (P x)} (l : list A) :
  Forall P l → filter P l = l.
Proof.
  induction 1 as [|x l Hx Hl IH]; [done|].
  by rewrite filter_cons, decide_True, IH by done.
Qed.

(** In a time-ordered list, events that fire strictly before [e] stand
    before [e]. *)
Lemma sublist_before (b l1 l2 : list Event) (e : Event) :
  StronglySorted no_later (l1 ++ e :: l2) →
  b `sublist_of` l1 ++ e :: l2 →
  Forall (λ x, fire_time x < fire_time e) b →
  b `sublist_of` l1.
Proof.
  intros Hs Hb Hlt. apply sublist_app_r in Hb as (b1 & b2 & -> & Hb1 & Hb2).
  apply Forall_app in Hlt as [_ Hlt2].
  destruct b2 as [|x b2]; [by rewrite app_nil_r|]. exfalso.
  apply Forall_cons in Hlt2 as [Hx _].
  assert (x ∈ e :: l2) as Hin.
  { eapply sublist_subseteq; [exact Hb2|]. by left. }
  apply StronglySorted_app_1_r in Hs. apply StronglySorted_inv in Hs as [_ Hall].
  apply elem_of_cons in Hin as [->|Hin]; [lia|].
  eapply Forall_forall in Hall; [|exact Hin]. unfold no_later in Hall. lia.
Qed.

Section RunOrder.
Context {World : Type}.
Variable handle : Call → Time → World → World * list (Time * Call).

Lemma run_until_in_order q0 fuel stop sim :
  in_order q0 sim → in_order q0 (run_until handle fuel stop sim).2.
Proof.
  revert sim. induction fuel as [|fuel IH]; intros sim Hinv; simpl.
  - destruct (queue sim) as [|e q]; [done|]. by destruct (stop <? fire_time e).
  - destruct (queue sim) as [|e q] eqn:Hq; [done|].
    destruct (stop <? fire_time e); [done|].
    destruct (handle (action e) (fire_time e) (world sim)) as [w reqs].
    destruct Hinv as [Hs Hsub]. rewrite Hq in Hs, Hsub.
    assert (StronglySorted no_later q ∧ Forall (λ x, fire_time e ≤ fire_time x) q)
      as [Hsq Hge].
    { apply StronglySorted_app_1_r in Hs. by apply StronglySorted_inv in Hs. }
    assert (StronglySorted no_later (executed sim ++ [e])) as Hdone.
    { replace (executed sim ++ e :: q) with ((executed sim ++ [e]) ++ q) in Hs
        by by rewrite <- app_assoc.
      by apply StronglySorted_app_1_l in Hs. }
    assert (∀ x y, x ∈ executed sim ++ [e] → fire_time e ≤ fire_time y → no_later x y)
      as Hbefore.
    { intros x y Hx Hy. apply elem_of_app in Hx as [Hx|Hx].
      - assert (no_later x e) as Hxe.
        { eapply (StronglySorted_app_1_elem_of _ _ _ _ _ Hs); [done|by left]. }
        unfold no_later in *. lia.
      - apply list_elem_of_singleton in Hx as ->. done. }
    destruct (schedule_all (fire_time e) reqs q) as [q'|] eqn:Hsch.
    + apply IH. destruct (schedule_all_spec _ _ _ _ Hsch Hsq) as (Hsq' & Hsub' & Hnow & _).
      split; simpl.
      * apply StronglySorted_app_2; [|done..].
        intros x y Hx Hy. apply Hbefore; [done|].
        specialize (Hnow Hge). by eapply Forall_forall in Hnow.
      * etrans; [exact Hsub|]. rewrite <- app_assoc. simpl.
        apply sublist_app; [done|]. by apply sublist_skip.
    + split; simpl.
      * apply StronglySorted_app_2; [|done..].
        intros x y Hx Hy. apply Hbefore; [done|]. by eapply Forall_forall in Hge.
      * by rewrite <- app_assoc.
Qed.

End RunOrder.

(** *** Routes and links under the scheduled calls *)

Lemma net_of_snoc w0 l e : net_of w0 (l ++ [e]) = apply_call (action e) (net_of w0 l).
Proof. unfold net_of. by rewrite foldl_app. Qed.

(** No call installs an entry. *)
Lemma fib_apply_call c w x : x ∈ fib (apply_call c w) → x ∈ fib w.
Proof.
  destruct c; simpl; try done; by intros [_ ?]%list_elem_of_filter.
Qed.

(** An entry removed by an executed call is not there afterwards. *)
Lemma removed_route_stays_out w0 l e n name m :
  e ∈ l → action e = RemoveRoute n name → (n, name, m) ∉ fib (net_of w0 l).
Proof.
  induction l as [|e' l IH] using rev_ind; [by intros ?%elem_of_nil|].
  rewrite net_of_snoc. intros [He|He]%elem_of_app Hact.
  - intros Hin%fib_apply_call. by apply (IH He Hact).
  - apply list_elem_of_singleton in He as <-. rewrite Hact. simpl.
    intros [Hne _]%list_elem_of_filter. apply Hne. done.
Qed.

(** A failed link stays Down as long as no link is restored. *)
Lemma failed_link_stays_down w0 l e a b :
  e ∈ l → action e = FailLink a b →
  Forall (λ x, is_restore (action x) = false) l →
  (a, b) ∈ down (net_of w0 l).
Proof.
  induction l as [|e' l IH] using rev_ind; [by intros ?%elem_of_nil|].
  rewrite net_of_snoc. intros [He|He]%elem_of_app Hact [Hl He']%Forall_app.
  - specialize (IH He Hact Hl). apply Forall_cons in He' as [He' _].
    destruct (action e'); simpl in *; try done. by right.
  - apply list_elem_of_singleton in He as <-. rewrite Hact. simpl. by left.
Qed.

(** A node whose only link is Down is reached by no request issued
    elsewhere. *)
Lemma unreachable_behind_down_link L w content target a h from n :
  (∀ x, (x, target) ∈ L ∨ (target, x) ∈ L → x = a) →
  ¬ link_up w a target →
  n ≠ target →
  ¬ reaches L w content target h from n.
Proof.
  intros Honly Hdown Hn Hreach.
  induction Hreach as [h from|h from n m Hfwd Hreach IH]; [done|].
  destruct (decide (m = target)) as [->|Hm]; [|by apply IH].
  destruct Hfwd as (_ & Hlink & Hup & _).
  apply Honly in Hlink as ->. done.
Qed.

(** *** First-in, first-out at equal timestamps *)

Lemma before_first_occurrence {A} (x : A) (l1 l2 k1 k2 : list A) :
  l1 ++ x :: l2 = k1 ++ x :: k2 → x ∉ k1 → k1 `prefix_of` l1.
Proof.
  revert l1. induction k1 as [|y k1 IH]; intros l1 E Hx; [by apply prefix_nil|].
  destruct l1 as [|z l1]; simpl in E.
  - injection E as -> _. exfalso. apply Hx. by left.
  - injection E as -> E. apply prefix_cons, IH; [done|].
    intros Hin. apply Hx. by right.
Qed.

Lemma schedule_all_Forall (P : Event → Prop) now reqs q q' :
  schedule_all now reqs q = Some q' →
  Forall P q → Forall (λ tc, P (event_of tc)) reqs → Forall P q'.
Proof.
  revert q. induction reqs as [|[t c] reqs IH]; intros q; simpl.
  - by intros [= <-].
  - unfold schedule. destruct (_ || _); [done|]. intros Hq' Hq [Hc Hreqs]%Forall_cons.
    apply (IH _ Hq'); [|done]. apply Forall_forall.
    intros x [->|Hx]%enqueue_elem_of; [done|]. by eapply Forall_forall in Hq.
Qed.

Section RunRules.
Context {World : Type}.
Variable handle : Call → Time → World → World * list (Time * Call).

(** What holds when a run starts and survives the execution of one event
    holds wherever the run has got to. *)
Lemma run_until_rule (I : Sim → Prop) fuel stop sim :
  I sim →
  (∀ sim e q, I sim → queue sim = e :: q →
     let '(w, reqs) := handle (action e) (fire_time e) (world sim) in
     I {| clock := fire_time e;
          queue := default q (schedule_all (fire_time e) reqs q);
          world := w; executed := executed sim ++ [e] |}) →
  I (run_until handle fuel stop sim).2.
Proof.
  intros Hsim Hstep. revert sim Hsim.
  induction fuel as [|fuel IH]; intros sim Hsim; simpl.
  - destruct (queue sim) as [|e q]; [done|]. by destruct (stop <? fire_time e).
  - destruct (queue sim) as [|e q] eqn:Hq; [done|].
    destruct (stop <? fire_time e); [done|].
    specialize (Hstep sim e q Hsim Hq).
    destruct (handle (action e) (fire_time e) (world sim)) as [w reqs].
    destruct (schedule_all (fire_time e) reqs q) as [q'|]; simpl in *; [|done].
    by apply IH.
Qed.

(** The events with any one timestamp that [Run] started from are served
    first among the events with that timestamp, in their order in the
    queue: requests made during the run queue up behind them. *)
Lemma run_until_fifo q0 fuel stop w :
  StronglySorted no_later q0 →
  ∀ t, filter (fires_at t) q0
       `prefix_of` filter (fires_at t)
                     (executed (run_until handle fuel stop (start q0 w)).2
                      ++ queue (run_until handle fuel stop (start q0 w)).2).
Proof.
  intros Hq0.
  apply (run_until_rule
    (λ sim, StronglySorted no_later (executed sim ++ queue sim)
            ∧ ∀ t, filter (fires_at t) q0
                   `prefix_of` filter (fires_at t) (executed sim ++ queue sim))).
  - split; [done|]. intros t. done.
  - intros sim e q [Hs Hfifo] Hq.
    destruct (handle (action e) (fire_time e) (world sim)) as [w' reqs]. simpl.
    rewrite Hq in Hs, Hfifo.
    assert (StronglySorted no_later q ∧ Forall (λ x, fire_time e ≤ fire_time x) q)
      as [Hsq Hge].
    { apply StronglySorted_app_1_r in Hs. by apply StronglySorted_inv in Hs. }
    assert (∀ x y, x ∈ executed sim ++ [e] → fire_time e ≤ fire_time y → no_later x y)
      as Hbefore.
    { intros x y Hx Hy. apply elem_of_app in Hx as [Hx|Hx].
      - assert (no_later x e) as Hxe.
        { eapply (StronglySorted_app_1_elem_of _ _ _ _ _ Hs); [done|by left]. }
        unfold no_later in *. lia.
      - apply list_elem_of_singleton in Hx as ->. done. }
    assert (StronglySorted no_later (executed sim ++ [e])) as Hdone.
    { replace (executed sim ++ e :: q) with ((executed sim ++ [e]) ++ q) in Hs
        by by rewrite <- app_assoc.
      by apply StronglySorted_app_1_l in Hs. }
    destruct (schedule_all (fire_time e) reqs q) as [q'|] eqn:Hsch; simpl.
    + destruct (schedule_all_spec _ _ _ _ Hsch Hsq) as (Hsq' & _ & Hnow & Hadd).
      split.
      * apply StronglySorted_app_2; [|done..].
        intros x y Hx Hy. apply Hbefore; [done|].
        specialize (Hnow Hge). by eapply Forall_forall in Hnow.
      * intros t. rewrite filter_app, Hadd, app_assoc, <- filter_app, <- app_assoc.
        simpl. by apply prefix_app_r.
    + rewrite <- app_assoc. simpl. done.
Qed.

(** Whatever holds of the events [Run] started from and of every request
    of the handlers holds of every event executed or pending. *)
Lemma run_until_all (P : Event → Prop) q0 fuel stop w :
  Forall P q0 →
  (∀ c t w', Forall (λ tc, P (event_of tc)) (handle c t w').2) →
  Forall P (executed (run_until handle fuel stop (start q0 w)).2
            ++ queue (run_until handle fuel stop (start q0 w)).2).
Proof.
  intros Hq0 Hreqs.
  apply (run_until_rule (λ sim, Forall P (executed sim ++ queue sim))); [done|].
  intros sim e q Hall Hq. specialize (Hreqs (action e) (fire_time e) (world sim)).
  destruct (handle (action e) (fire_time e) (world sim)) as [w' reqs]. simpl in *.
  rewrite Hq in Hall. apply Forall_app in Hall as [Hex [He Hqall]%Forall_cons].
  rewrite <- app_assoc. simpl. apply Forall_app. split; [done|]. constructor; [done|].
  destruct (schedule_all (fire_time e) reqs q) as [q'|] eqn:Hsch; simpl; [|done].
  by eapply schedule_all_Forall.
Qed.

End RunRules.

Section PhaseBoundary.
Context `{Platform} {World : Type}.
Variable handle : Call → Time → World → World * list (Time * Call).

Lemma boundary_events_of p N :
  boundary_events N (Seconds (initialization_period_length p))
  = event_of <$> boundary p N.
Proof.
  unfold boundary_events, boundary. rewrite fmap_app, <- list_fmap_compose. done.
Qed.

Lemma flood_events_not (P : Event → Prop) (k : list (Time * Call)) :
  (∀ t a q h, P {| fire_time := t; action := FloodPacketWithSeq a q h |}) →
  Forall flood2 k → Forall P (event_of <$> k).
Proof.
  intros HP Hk. apply Forall_fmap. eapply Forall_impl; [exact Hk|].
  intros [t c] (a & q & E). simpl in E. subst c. apply HP.
Qed.

(** C1. Take a run of the program that reached [Simulator::Run], the
    queue its calls produce, and any execution of that queue by the
    scheduler, with any event handlers, up to any point.

    - Among the events of any one timestamp, the calls of [main] are served
      first and in the order [main] made them (first in, first out).
    - Whenever the failure of the producer's access link has been executed,
      the coarse route removals at all the infrastructure nodes
      [0 .. N-1] were executed before it, in this order.
    - Whenever an event that fires strictly after the end of the
      initialization period has been executed, the removals and after them
      the link failure were executed before it; so when it is processed no
      infrastructure node holds a coarse entry for the producer's prefix
      and, unless some handler restores links, the producer's access link
      is Down and no request issued at another node can reach the
      producer.
    - The same holds from the execution of the link failure on, also for
      events of the same timestamp that were scheduled after it.

    [infra] stands for the links the topology file describes, which join
    infrastructure nodes; [net0] for the routes and links when the run
    starts. *)
Theorem phase_boundary_order (argc : Z) (p : Params) (N seed : Z) (fuel : nat)
    (T : Topo) (infra : list (Node * Node)) (net0 : Net)
    (q0 : list Event) (w : World) (fuel' : nat) (stop : Time) :
  2 ≤ N < 2 ^ 30 →
  returned (main argc p N seed fuel) = true →
  topo_of (main argc p N seed fuel) = Some T →
  load (calls_of (main argc p N seed fuel)) = Some q0 →
  Forall (λ l, l.1 ∈ infrastructure_nodes T ∧ l.2 ∈ infrastructure_nodes T) infra →
  let tb := Seconds (initialization_period_length p) in
  let sim := (run_until handle fuel' stop (start q0 w)).2 in
  let no_restore :=
    ∀ c t w', Forall (λ tc : Time * Call, is_restore tc.2 = false) (handle c t w').2 in
  (∀ t, filter (fires_at t) (event_of <$> calls_of (main argc p N seed fuel))
        `prefix_of` filter (fires_at t) (executed sim ++ queue sim))
  ∧ (∀ l1 l2, executed sim = l1 ++ failure_event N tb :: l2 →
       removal_events N tb `sublist_of` l1)
  ∧ (∀ l1 e l2, executed sim = l1 ++ e :: l2 → tb < fire_time e →
       boundary_events N tb `sublist_of` l1
       ∧ no_stale_entry T (net_of net0 l1)
       ∧ (no_restore → producer_cut_off N T (infra ++ links T) (net_of net0 l1)))
  ∧ (∀ l1 l2, executed sim = l1 ++ l2 → failure_event N tb ∈ l1 →
       removal_events N tb ++ [failure_event N tb] `sublist_of` l1
       ∧ no_stale_entry T (net_of net0 l1)
       ∧ (no_restore → producer_cut_off N T (infra ++ links T) (net_of net0 l1))).
Proof.
  intros HN Hret Htopo Hload Hinfra tb sim no_restore.
  (* the topology and the calls of the run *)
  assert (topology_of p N T
          ∧ ∃ k1 k2, calls_of (main argc p N seed fuel) = k1 ++ boundary p N ++ k2
                     ∧ Forall flood2 k1 ∧ Forall flood2 k2)
    as (HT & k1 & k2 & Hcalls & Hk1 & Hk2).
  { revert Hret Htopo. unfold main. destruct (argc <? 10); [done|].
    destruct (build_topology_spec p N) as (T' & -> & HT); [lia|]. simpl.
    destruct (schedule_events T' p seed fuel) as [s| |] eqn:Hs; [|done..].
    intros _ [= ->]. split; [done|].
    destruct (schedule_events_complete T p N seed fuel s) as (k1 & k2 & E & F1 & F2);
      [lia|done|done|].
    by exists k1, k2. }
  destruct (load_spec _ _ Hload) as [Hsorted Hq0].
  assert (Forall (fires_at tb) (boundary_events N tb)) as Hat.
  { unfold boundary_events. apply Forall_app. split; [|by repeat constructor].
    apply Forall_fmap. by apply Forall_true. }
  assert (boundary_events N tb = removal_events N tb ++ [failure_event N tb]) as Hbd
    by done.
  (* first in, first out *)
  assert (∀ t, filter (fires_at t) (event_of <$> calls_of (main argc p N seed fuel))
               `prefix_of` filter (fires_at t) (executed sim ++ queue sim)) as Hfifo.
  { intros t. rewrite <- Hq0. by apply run_until_fifo. }
  (* the order of execution *)
  destruct (run_until_in_order handle q0 fuel' stop (start q0 w)) as [Hs Hsub].
  { split; simpl; [done|done]. }
  fold sim in Hs, Hsub.
  assert (boundary_events N tb `sublist_of` q0) as Hbq0.
  { etrans; [|apply (sublist_filter (fires_at tb))].
    rewrite Hq0, Hcalls, <- (filter_all (fires_at tb) (boundary_events N tb)) by done.
    apply filter_sublist. subst tb. rewrite boundary_events_of, !fmap_app.
    apply sublist_inserts_l, sublist_inserts_r. done. }
  (* removals before the failure *)
  assert (∀ l1 l2, executed sim = l1 ++ failure_event N tb :: l2 →
            removal_events N tb `sublist_of` l1) as Hfail.
  { intros l1 l2 Hex.
    destruct (Hfifo tb) as [rest Hrest].
    rewrite Hcalls, !fmap_app, !filter_app in Hrest.
    subst tb. rewrite <- boundary_events_of in Hrest.
    set (tb := Seconds (initialization_period_length p)) in *.
    rewrite (filter_all (fires_at tb) (boundary_events N tb)), Hbd in Hrest by done.
    rewrite Hex in Hrest.
    rewrite !filter_app, (filter_cons _ (failure_event N tb)), decide_True in Hrest
      by done.
    rewrite <- !app_assoc in Hrest. simpl in Hrest.
    rewrite (app_assoc (filter _ (event_of <$> k1))) in Hrest.
    apply before_first_occurrence in Hrest.
    - etrans; [|apply (sublist_filter (fires_at tb))].
      destruct Hrest as [k ->]. apply sublist_inserts_r, sublist_inserts_l. done.
    - intros [Hin|Hin]%elem_of_app.
      + apply list_elem_of_filter in Hin as [_ Hin].
        eapply Forall_forall in Hin;
          [|apply (flood_events_not (λ x, x ≠ failure_event N tb)); [done|exact Hk1]].
        done.
      + unfold removal_events in Hin.
        by apply list_elem_of_fmap in Hin as (i & [=] & _). }
  (* the routes and links once the failure has been executed *)
  assert (∀ l1 l2, executed sim = l1 ++ l2 → failure_event N tb ∈ l1 →
            removal_events N tb ++ [failure_event N tb] `sublist_of` l1
            ∧ no_stale_entry T (net_of net0 l1)
            ∧ (no_restore → producer_cut_off N T (infra ++ links T) (net_of net0 l1)))
    as Hstate.
  { intros l1 l2 Hex Hin.
    assert (removal_events N tb ++ [failure_event N tb] `sublist_of` l1) as Hl1.
    { apply list_elem_of_split in Hin as (a & b & ->).
      rewrite <- app_assoc in Hex. simpl in Hex. apply Hfail in Hex.
      apply sublist_app; [done|]. apply sublist_skip, sublist_nil_l. }
    split_and!; [done| |].
    - intros n m Hn. rewrite (top_infrastructure _ _ _ HT) in Hn.
      apply elem_of_seqZ in Hn.
      eapply (removed_route_stays_out net0 l1
                {| fire_time := tb; action := RemoveRoute n "ndn:///prefix" |});
        [|done].
      eapply sublist_subseteq; [exact Hl1|]. apply elem_of_app. left.
      unfold removal_events. apply list_elem_of_fmap. exists n. split; [done|].
      apply elem_of_seqZ. lia.
    - intros Hhandle.
      assert (¬ link_up (net_of net0 l1) (N - 1) (2 * N - 1)) as Hdown.
      { intros [Hup _]. apply Hup.
        apply (failed_link_stays_down net0 l1 (failure_event N tb)); [done|done|].
        assert (Forall (λ x, is_restore (action x) = false)
                  (executed sim ++ queue sim)) as Hall.
        { apply run_until_all; [|exact Hhandle].
          apply Forall_forall. intros x Hx.
          assert (x ∈ filter (fires_at (fire_time x)) q0) as Hin'
            by (apply list_elem_of_filter; split; [reflexivity|done]).
          rewrite Hq0, Hcalls in Hin'.
          apply list_elem_of_filter in Hin' as [_ Hin'].
          rewrite !fmap_app, !elem_of_app in Hin'.
          destruct Hin' as [Hin'|[Hin'|Hin']].
          - eapply Forall_forall in Hin';
              [|apply (flood_events_not (λ x, is_restore (action x) = false));
                [done|exact Hk1]].
            done.
          - subst tb. rewrite <- boundary_events_of, Hbd in Hin'.
            apply elem_of_app in Hin' as [Hin'|Hin'].
            + unfold removal_events in Hin'.
              by apply list_elem_of_fmap in Hin' as (i & -> & _).
            + by apply list_elem_of_singleton in Hin' as ->.
          - eapply Forall_forall in Hin';
              [|apply (flood_events_not (λ x, is_restore (action x) = false));
                [done|exact Hk2]].
            done. }
        rewrite Hex, <- app_assoc in Hall. by apply Forall_app in Hall as [? _]. }
      split; [done|]. intros content h from n Hn.
      apply (unreachable_behind_down_link _ _ _ _ (N - 1)); [|done|].
      + intros x. rewrite !elem_of_app, (top_links _ _ _ HT), !list_elem_of_fmap.
        rewrite Forall_forall in Hinfra.
        intros [[Hx|(i & [= -> Hi] & _)]|[Hx|(i & [= Hi _] & Hi')]].
        * apply Hinfra in Hx as [_ Hx]. simpl in Hx.
          rewrite (top_infrastructure _ _ _ HT) in Hx. apply elem_of_seqZ in Hx. lia.
        * lia.
        * apply Hinfra in Hx as [Hx _]. simpl in Hx.
          rewrite (top_infrastructure _ _ _ HT) in Hx. apply elem_of_seqZ in Hx. lia.
        * apply elem_of_seqZ in Hi'. lia.
      + rewrite (top_producer _ _ _ HT), list_elem_of_singleton in Hn. done. }
  split_and!; [done|done| |done].
  (* both before any later event *)
  intros l1 e l2 Hex Hlater.
  assert (boundary_events N tb `sublist_of` l1) as Hl1.
  { rewrite Hex, <- app_assoc in Hs, Hsub. simpl in Hs, Hsub.
    eapply sublist_before; [exact Hs| |].
    - etrans; [exact Hbq0|exact Hsub].
    - eapply Forall_impl; [exact Hat|]. unfold fires_at. intros x ->. done. }
  split; [done|].
  apply (Hstate l1 (e :: l2) Hex).
  eapply sublist_subseteq; [exact Hl1|]. rewrite Hbd. apply elem_of_app. right. by left.
Qed.

End PhaseBoundary.

Lemma phase_boundary_order_witness :
  let run := main (H := Replay.platform) 10 Replay.params 3 7 100 in
  let q0 := default [] (load (calls_of run)) in
  let at_boundary := executed (run_until forward_flood 100 1000 (start q0 ())).2 in
  let later := executed (run_until forward_flood 100 2000 (start q0 ())).2 in
  [ {| fire_time := 1000; action := RemoveRoute 0 "ndn:///prefix" |};
    {| fire_time := 1000; action := RemoveRoute 1 "ndn:///prefix" |};
    {| fire_time := 1000; action := RemoveRoute 2 "ndn:///prefix" |} ]
  `sublist_of` take 15 at_boundary
  ∧ [ {| fire_time := 1000; action := RemoveRoute 0 "ndn:///prefix" |};
      {| fire_time := 1000; action := RemoveRoute 1 "ndn:///prefix" |};
      {| fire_time := 1000; action := RemoveRoute 2 "ndn:///prefix" |};
      {| fire_time := 1000; action := FailLink 2 5 |} ]
    `sublist_of` take 16 later
  ∧ ¬ reaches ([(0, 1); (1, 2)] ++ links replay_topology)
        (net_of replay_net (take 16 later)) 4 5 2 None 3.
Proof.
  intros run q0 at_boundary later.
  assert (∀ c t w, Forall (λ tc : Time * Call, is_restore tc.2 = false)
                     (forward_flood c t w).2) as Hhandle.
  { intros c t w. destruct c; simpl; try done.
    destruct (0 <? hop); repeat constructor. }
  assert (Forall (λ l : Node * Node, l.1 ∈ infrastructure_nodes replay_topology
                                     ∧ l.2 ∈ infrastructure_nodes replay_topology)
            [(0, 1); (1, 2)]) as Hinfra.
  { repeat constructor; simpl; vm_compute; rewrite !elem_of_cons; tauto. }
  destruct (phase_boundary_order (H := Replay.platform) forward_flood
              10 Replay.params 3 7 100 replay_topology [(0, 1); (1, 2)] replay_net
              q0 () 100 1000) as (_ & Hfail & _);
    [lia|vm_compute; reflexivity..|exact Hinfra|].
  destruct (phase_boundary_order (H := Replay.platform) forward_flood
              10 Replay.params 3 7 100 replay_topology [(0, 1); (1, 2)] replay_net
              q0 () 100 2000) as (_ & _ & Hlater & _);
    [lia|vm_compute; reflexivity..|exact Hinfra|].
  destruct (Hlater (take 16 later)
              {| fire_time := 1200; action := FloodPacketWithSeq (consumer_app 3) 4 2 |}
              (drop 17 later)) as (Hbefore & _ & Hnet);
    [vm_compute; reflexivity..|].
  split_and!.
  - apply (Hfail (take 15 at_boundary) []). vm_compute. reflexivity.
  - exact Hbefore.
  - apply (Hnet Hhandle).
    replace (producer_node replay_topology) with [5] by (vm_compute; reflexivity).
    rewrite list_elem_of_singleton. discriminate.
Defined.

(** ** The LRU content store *)

Lemma recency_snoc h o : recency (h ++ [o]) = promote (op_id o) (recency h).
Proof. unfold recency. by rewrite foldl_app. Qed.

Lemma run_snoc h o s : run (h ++ [o]) s = step (run h s) o.
Proof. unfold run. by rewrite foldl_app. Qed.

Lemma last_touch_snoc c h o :
  last_touch c (h ++ [o])
  = if bool_decide (op_id o = c) then Some (length h) else last_touch c h.
Proof.
  induction h as [|o' h IH]; simpl.
  - by destruct (bool_decide (op_id o = c)).
  - rewrite IH. destruct (bool_decide (op_id o = c)); [done|].
    by destruct (last_touch c h).
Qed.

Lemma last_touch_bound c h t : last_touch c h = Some t → (t < length h)%nat.
Proof.
  revert t. induction h as [|o h IH]; intros t; simpl; [done|].
  destruct (last_touch c h) as [i|].
  - intros [= <-]. specialize (IH i eq_refl). lia.
  - destruct (bool_decide (op_id o = c)); [|done]. intros [= <-]. lia.
Qed.

Lemma promote_sublist c l1 l2 :
  l1 `sublist_of` l2 → promote c l1 `sublist_of` promote c l2.
Proof. intros Hl. unfold promote. apply sublist_skip. by apply filter_sublist. Qed.

Lemma sublist_promote_fresh c l1 l2 :
  c ∉ l1 → l1 `sublist_of` l2 → l1 `sublist_of` promote c l2.
Proof.
  intros Hc Hl. unfold promote. apply sublist_cons.
  rewrite <- (filter_all (λ x, x ≠ c) l1).
  - by apply filter_sublist.
  - apply Forall_forall. intros x Hx ->. done.
Qed.

Lemma removelast_sublist {A} (l : list A) : removelast l `sublist_of` l.
Proof.
  rewrite removelast_firstn_len. apply sublist_take.
Qed.

Lemma NoDup_promote c l : NoDup l → NoDup (promote c l).
Proof.
  intros Hl. unfold promote. constructor; [|by apply NoDup_filter].
  rewrite list_elem_of_filter. tauto.
Qed.

Lemma length_promote c l : c ∈ l → (length (promote c l) ≤ length l)%nat.
Proof.
  intros Hc. unfold promote. simpl.
  pose proof (length_filter_lt (λ x, x ≠ c) l c Hc). lia.
Qed.

(** Every named id has a last touch; an id promoted before another was
    touched later. *)
Lemma recency_last_touch h :
  (∀ x, x ∈ recency h → is_Some (last_touch x h))
  ∧ (∀ w v, [w; v] `sublist_of` recency h →
       ∃ tv tw, last_touch v h = Some tv ∧ last_touch w h = Some tw ∧ (tv < tw)%nat).
Proof.
  induction h as [|o h [IHin IHord]] using rev_ind.
  - split.
    + intros x Hx. by apply elem_of_nil in Hx.
    + intros w v Hwv. by apply sublist_nil_r in Hwv.
  - rewrite recency_snoc. unfold promote. split.
    + intros x Hx. rewrite last_touch_snoc.
      case_bool_decide as Hc; [by eexists|].
      apply elem_of_cons in Hx as [->|Hx]; [done|].
      apply list_elem_of_filter in Hx as [_ Hx]. by apply IHin.
    + intros w v Hwv. rewrite !last_touch_snoc.
      apply sublist_cons_r in Hwv as [Hwv|(l' & [= -> <-] & Hv)].
      * assert ([w; v] ⊆ filter (λ x, x ≠ op_id o) (recency h)) as Hsub
          by by apply sublist_subseteq.
        assert (w ≠ op_id o ∧ v ≠ op_id o) as [Hw Hv].
        { split.
          - assert (w ∈ filter (λ x, x ≠ op_id o) (recency h)) as Hin
              by (apply Hsub; repeat constructor).
            by apply list_elem_of_filter in Hin as [? _].
          - assert (v ∈ filter (λ x, x ≠ op_id o) (recency h)) as Hin
              by (apply Hsub; repeat constructor).
            by apply list_elem_of_filter in Hin as [? _]. }
        rewrite !bool_decide_eq_false_2 by done.
        apply IHord. etrans; [exact Hwv|apply sublist_filter].
      * assert (v ∈ filter (λ x, x ≠ op_id o) (recency h)) as Hv'.
        { eapply sublist_subseteq; [exact Hv|]. repeat constructor. }
        apply list_elem_of_filter in Hv' as [Hne Hin].
        destruct (IHin v Hin) as [tv Htv].
        rewrite (bool_decide_eq_false_2 (op_id o = v)) by done.
        rewrite (bool_decide_eq_true_2 (op_id o = op_id o)) by done.
        exists tv, (length h). split_and!; [done..|].
        by eapply last_touch_bound.
Qed.

Lemma step_ok k h s o : lru_ok k h s → lru_ok k (h ++ [o]) (step s o).
Proof.
  intros [Hcap Hpos Hsize Hnd Hrec].
  assert (∀ c, op_id o = c → c ∈ entries s →
            lru_ok k (h ++ [o])
              {| capacity := capacity s; entries := promote c (entries s) |}) as c_hit.
  { intros c <- Hc. split; simpl; [done|done| | |].
    - pose proof (length_promote _ _ Hc) as Hlen. simpl in Hlen. lia.
    - by apply NoDup_promote.
    - rewrite recency_snoc. by apply promote_sublist. }
  assert (∀ c l, op_id o = c → c ∉ entries s → l `sublist_of` entries s →
            c :: l `sublist_of` recency (h ++ [o])) as c_new.
  { intros c l <- Hc Hl. rewrite recency_snoc. unfold promote. apply sublist_skip.
    rewrite <- (filter_all (λ x, x ≠ op_id o) l).
    - apply filter_sublist. by etrans.
    - apply Forall_forall. intros x Hx ->. apply Hc. by eapply sublist_subseteq. }
  destruct o as [c|c]; simpl.
  - (* get *)
    unfold get. case_bool_decide as Hc; simpl; [by apply c_hit|].
    split; [done..|]. rewrite recency_snoc. by apply sublist_promote_fresh.
  - (* put *)
    unfold put. case_bool_decide as Hc; simpl; [by apply c_hit|].
    destruct (Z.ltb_spec (Z.of_nat (length (entries s))) (capacity s)) as [Hlt|Hge];
      simpl.
    + split; simpl; [done|done|lia| |].
      * by constructor.
      * by apply c_new.
    + pose proof (removelast_sublist (entries s)) as Hrl.
      split; simpl; [done|done| | |].
      * rewrite removelast_firstn_len, length_take. lia.
      * constructor.
        -- intros Hin. apply Hc. by eapply sublist_subseteq.
        -- by eapply sublist_NoDup.
      * by apply c_new.
Qed.

Lemma run_ok k s0 h : create k = Some s0 → lru_ok k h (run h s0).
Proof.
  unfold create. destruct (Z.leb_spec k 0) as [|Hk]; [done|]. intros [= <-].
  induction h as [|o h IH] using rev_ind.
  - split; simpl; [done|done|lia|constructor|done].
  - rewrite run_snoc. by apply step_ok.
Qed.

Lemma elem_of_promote c l x : x ∈ promote c l ↔ x = c ∨ x ∈ l.
Proof.
  unfold promote. rewrite elem_of_cons, list_elem_of_filter.
  destruct (decide (x = c)); tauto.
Qed.

(** C5. Start from a store created with capacity [k] and apply any
    sequence [h] of [get]/[put] operations.  The store then holds at most
    [k] ids, all distinct.  A [put] evicts an id exactly when its id is new
    and the store is full; the id [v] it evicts was in the store, and every
    other id [w] in the store was last named by a [get] or [put] of [h] at a
    later position than [v] was.  After the [put] the store holds the id
    put and the ids it held before, the evicted one apart and no other; a
    [get] hits exactly the ids in the store and leaves the same ids in
    it. *)
Theorem lru_bounded_and_evicts_least_recent (k : Z) (s0 : Store) (h : list Op) :
  create k = Some s0 →
  let s := run h s0 in
  Z.of_nat (length (entries s)) ≤ k
  ∧ NoDup (entries s)
  ∧ (∀ c, c ∉ entries s → Z.of_nat (length (entries s)) = k →
       is_Some ((put c s).1))
  ∧ (∀ c v, (put c s).1 = Some v →
       (c ∉ entries s)
       ∧ Z.of_nat (length (entries s)) = k
       ∧ v ∈ entries s
       ∧ (v ∉ entries ((put c s).2))
       ∧ ∀ w, w ∈ entries s → w ≠ v →
           ∃ tv tw, last_touch v h = Some tv ∧ last_touch w h = Some tw ∧ (tv < tw)%nat)
  ∧ (∀ c x, x ∈ entries ((put c s).2)
            ↔ x = c ∨ (x ∈ entries s ∧ (put c s).1 ≠ Some x))
  ∧ (∀ c, capacity ((put c s).2) = k ∧ capacity ((get c s).2) = k)
  ∧ (∀ c, (get c s).1 = true ↔ c ∈ entries s)
  ∧ (∀ c x, x ∈ entries ((get c s).2) ↔ x ∈ entries s).
Proof.
  intros Hcreate s. destruct (run_ok k s0 h Hcreate) as [Hcap Hpos Hsize Hnd Hrec].
  fold s in Hcap, Hsize, Hnd, Hrec. split_and!; [done|done| | | | | |].
  - intros c Hc Hfull. unfold put. rewrite bool_decide_eq_false_2 by done.
    destruct (Z.ltb_spec (Z.of_nat (length (entries s))) (capacity s)); [lia|]. simpl.
    destruct (entries s) as [|x l] eqn:E; [simpl in *; lia|].
    rewrite <- E. destruct (last (entries s)) eqn:Hlast; [done|].
    apply last_None in Hlast. congruence.
  - intros c v. unfold put. case_bool_decide as Hc; [done|].
    destruct (Z.ltb_spec (Z.of_nat (length (entries s))) (capacity s)) as [Hlt|Hge];
      [done|]. simpl. intros Hlast.
    apply last_Some in Hlast as [l Hl]. split_and!.
    + done.
    + lia.
    + rewrite Hl. apply elem_of_app. right. by left.
    + rewrite Hl, removelast_last. rewrite Hl in Hnd.
      apply NoDup_app in Hnd as (_ & Hdisj & _).
      intros Hin. apply elem_of_cons in Hin as [->|Hin].
      * apply Hc. rewrite Hl. apply elem_of_app. right. by left.
      * apply (Hdisj v Hin). by left.
    + intros w Hw Hne. apply (proj2 (recency_last_touch h)).
      etrans; [|exact Hrec]. rewrite Hl. rewrite Hl in Hw.
      apply elem_of_app in Hw as [Hw|Hw].
      * apply list_elem_of_split in Hw as (l1 & l2 & ->).
        rewrite <- !app_assoc. simpl. apply sublist_inserts_l.
        apply sublist_skip. apply sublist_inserts_l. done.
      * apply list_elem_of_singleton in Hw. done.
  - intros c x. unfold put. case_bool_decide as Hc; simpl.
    { rewrite elem_of_promote. split; [|tauto].
      intros [->|Hx]; [by left|]. right. by split. }
    destruct (Z.ltb_spec (Z.of_nat (length (entries s))) (capacity s)) as [Hlt|Hge];
      simpl.
    { rewrite elem_of_cons. split; [|tauto].
      intros [->|Hx]; [by left|]. right. by split. }
    destruct (last (entries s)) as [v|] eqn:Hlast.
    + apply last_Some in Hlast as [l Hl]. rewrite Hl, removelast_last.
      rewrite Hl in Hnd. apply NoDup_app in Hnd as (_ & Hdisj & _).
      rewrite elem_of_cons, elem_of_app, list_elem_of_singleton. split.
      * intros [->|Hx]; [by left|]. right. split; [by left|].
        intros [= ->]. apply (Hdisj x Hx). by left.
      * intros [->|[[Hx| ->] Hne]]; [by left|by right|done].
    + apply last_None in Hlast. rewrite Hlast in Hge. simpl in Hge. lia.
  - intros c. split.
    + unfold put. case_bool_decide; [done|]. by destruct (_ <? _).
    + unfold get. by case_bool_decide.
  - intros c. unfold get. by case_bool_decide.
  - intros c x. unfold get. case_bool_decide as Hc; simpl; [|done].
    rewrite elem_of_promote. split; [|tauto]. by intros [->|Hx].
Qed.

Lemma lru_bounded_and_evicts_least_recent_witness :
  let s0 := {| capacity := 2; entries := [] |} in
  let h := [OpPut 10; OpPut 20; OpGet 10] in
  (put 30 (run h s0)).1 = Some 20
  ∧ (∃ tv tw, last_touch 20 h = Some tv ∧ last_touch 10 h = Some tw ∧ (tv < tw)%nat)
  ∧ 10 ∈ entries ((put 30 (run h s0)).2)
  ∧ 30 ∈ entries ((put 30 (run h s0)).2).
Proof.
  intros s0 h. split; [reflexivity|].
  destruct (lru_bounded_and_evicts_least_recent 2 s0 h eq_refl)
    as (_ & _ & _ & Hev & Hput & _).
  destruct (Hev 30 20 eq_refl) as (_ & _ & _ & _ & Hlru).
  split_and!.
  - apply Hlru; [apply list_elem_of_here|done].
  - apply Hput. right. split; [apply list_elem_of_here|done].
  - apply Hput. by left.
Defined.

Lemma recency_ids h x : x ∈ recency h → x ∈ op_id <$> h.
Proof.
  induction h as [|o h IH] using rev_ind; [done|].
  rewrite recency_snoc, fmap_app. unfold promote. intros Hx.
  apply elem_of_app. apply elem_of_cons in Hx as [->|Hx].
  - right. by left.
  - left. apply IH. by apply list_elem_of_filter in Hx as [_ Hx].
Qed.

(** A store as large as the universe of content ids never evicts: this is
    the situation of the consumer and producer nodes, whose capacity is
    [num_contents]. *)
Lemma universe_sized_store_never_evicts (k : Z) (s0 : Store) (h : list Op)
    (U : list Z) (c : Z) :
  create k = Some s0 →
  Z.of_nat (length U) ≤ k →
  (∀ o, o ∈ h → op_id o ∈ U) → c ∈ U →
  (put c (run h s0)).1 = None.
Proof.
  intros Hcreate HU Hh Hc.
  destruct (run_ok k s0 h Hcreate) as [Hcap Hpos Hsize Hnd Hrec].
  unfold put. case_bool_decide as Hin; [done|].
  destruct (Z.ltb_spec (Z.of_nat (length (entries (run h s0)))) (capacity (run h s0)))
    as [|Hfull]; [done|]. exfalso.
  assert (c :: entries (run h s0) ⊆+ U) as Hsub.
  { apply NoDup_submseteq; [by constructor|].
    intros x [->|Hx]%elem_of_cons; [done|].
    assert (x ∈ op_id <$> h) as (o & -> & Ho)%list_elem_of_fmap.
    { apply recency_ids. by eapply sublist_subseteq. }
    by apply Hh. }
  apply submseteq_length in Hsub. simpl in Hsub. lia.
Qed.

(** ** The disconnection branch *)

Section Disconnect.
Context `{Platform}.

Lemma with_gen_with_gen g g' s : with_gen g (with_gen g' s) = with_gen g s.
Proof. done. Qed.

(** Drawing a connected consumer only advances the generator. *)
Lemma pick_connected_spec fuel T s app_indx s1 :
  pick_connected fuel T s = Ok (app_indx, s1) →
  (∃ g, s1 = with_gen g s)
  ∧ 0 ≤ app_indx < GetN (consumer_apps T)
  ∧ ∃ m, Get (connected_content s) app_indx = Some m ∧ map_empty m = false.
Proof.
  revert s. induction fuel as [|fuel IH]; intros s; simpl.
  - destruct (rnd_gen (gen s)) as [r g1].
    destruct (umod _ _) as [a|] eqn:Hmod; [|done].
    destruct (Get _ a) as [m|] eqn:Hget; [|done].
    destruct (map_empty m) eqn:Hm; [done|]. intros [= <- <-].
    split_and!; [by eexists|eapply umod_range; eauto using GetN_nonneg..|by eexists].
  - destruct (rnd_gen (gen s)) as [r g1].
    destruct (umod _ _) as [a|] eqn:Hmod; [|done].
    destruct (Get _ a) as [m|] eqn:Hget; [|done].
    destruct (map_empty m) eqn:Hm.
    + intros Hpick. destruct (IH _ Hpick) as ([g ->] & Ha & Hm').
      split_and!; [by exists g|apply Ha..|exact Hm'].
    + intros [= <- <-].
      split_and!; [by eexists|eapply umod_range; eauto using GetN_nonneg..|by eexists].
Qed.

Lemma disconnect_lambda_floor (rate : double) (n : Z) :
  0 ≤ n → disconnect_lambda rate n = (rate * of_u32 (Z.max n 1))%float.
Proof.
  intros Hn. unfold disconnect_lambda. destruct (Z.eqb_spec 0 n) as [<-|Hne]; [done|].
  by rewrite Z.max_l by lia.
Qed.

(** C2. Whatever the active-connection count [n], the rate that the
    adjustment hands to [set_new_lambda] is [disconnection_rate * max(n, 1)];
    for [n = 0] it is [disconnection_rate * 1], not zero.  And after every
    pass through the disconnection branch the disconnect distribution
    carries exactly this rate for the decremented count. *)
Theorem disconnect_rate_floor (T : Topo) (p : Params) :
  (∀ n d, 0 ≤ n →
     lambda (set_new_lambda d (disconnect_lambda (disconnection_rate p) n))
     = (disconnection_rate p * of_u32 (Z.max n 1))%float)
  ∧ (∀ d, lambda (set_new_lambda d (disconnect_lambda (disconnection_rate p) 0))
          = (disconnection_rate p * 1)%float)
  ∧ (∀ fuel s, completes (disconnect_body T p fuel s) = true →
       let s' := ctl_state (disconnect_body T p fuel s) in
       num_connected s' = u32 (num_connected s - 1)
       ∧ lambda (rng_exp_dis s')
         = (disconnection_rate p * of_u32 (Z.max (num_connected s') 1))%float).
Proof.
  split_and!.
  - intros n d Hn. simpl. by apply disconnect_lambda_floor.
  - done.
  - intros fuel s. unfold disconnect_body.
    destruct (0 =? num_connected s); [done|].
    destruct (pick_connected fuel T s) as [[a s1]| |] eqn:Hpick; [|done..].
    apply pick_connected_spec in Hpick as ([g ->] & _ & _).
    simpl. destruct (rnd_gen g) as [r g2].
    destruct (umod _ _) as [k|]; [|done].
    destruct (Get _ k) as [[first second]|]; [|done].
    match goal with |- context [match ?x with Some _ => _ | None => _ end] =>
      destruct x as [[m' sched']|] end; [|done].
    simpl. destruct (exponential _ _) as [gap g3]. intros _. simpl.
    split; [done|]. apply disconnect_lambda_floor. apply u32_range.
Qed.

End Disconnect.

Lemma disconnect_rate_floor_witness :
  let s' := ctl_state (disconnect_body replay_topology Replay.params 5 last_session) in
  num_connected s' = 0 ∧ lambda (rng_exp_dis s') = (1 * 1)%float.
Proof.
  destruct (disconnect_rate_floor (H := Replay.platform) replay_topology Replay.params)
    as (_ & _ & Hbody).
  destruct (Hbody 5%nat last_session) as [Hn Hl]; [vm_compute; reflexivity|].
  split; [exact Hn|]. rewrite Hl. vm_compute. reflexivity.
Defined.

Section ScopedRemoval.
Context `{Platform}.

Lemma disconnect_body_effect p N T fuel s s' :
  1 ≤ N < 2 ^ 30 → topology_of p N T →
  disconnect_body T p fuel s = Ok (Next s') →
  disconnect_effect N T s s'.
Proof.
  intros HN HT. unfold disconnect_body. destruct (0 =? num_connected s); [done|].
  destruct (pick_connected fuel T s) as [[a s1]| |] eqn:Hpick; [|done..].
  apply pick_connected_spec in Hpick as ([g ->] & Ha & m & Hm & Hne).
  assert (GetN (consumer_apps T) = N - 1) as HGetN.
  { destruct HT. rewrite top_apps0. unfold GetN.
    rewrite length_fmap, length_seqZ, Z2Nat.id by lia. apply u32_small. lia. }
  rewrite HGetN in Ha. simpl. rewrite Hm. simpl.
  destruct (rnd_gen g) as [r g2].
  destruct (umod _ _) as [k|]; [|done].
  destruct (Get m k) as [[first second]|] eqn:Hk; [|done].
  (* the nodes the removal names *)
  assert (map_at (app_to_node T) (to_int a) = a + N) as Haccess.
  { rewrite to_int_small by lia. unfold map_at.
    by rewrite (top_app_to_node _ _ _ HT) by lia. }
  assert (map_at (access_to_router T) (a + N) = a) as Hrouter.
  { unfold map_at. by rewrite (top_access_to_router _ _ _ HT) by lia. }
  rewrite Haccess, Hrouter, (top_nodes _ _ _ HT).
  rewrite !u32_small, !Get_seqZ by lia. simpl. rewrite !Z.add_0_l.
  assert (Z.to_nat a < length (connected_content s))%nat as Hlen.
  { apply Get_Some in Hm as [_ Hm]. by apply lookup_lt_Some in Hm. }
  assert (∀ m', Get (<[Z.to_nat a := m']> (connected_content s)) a = Some m') as Hset.
  { intros m'. rewrite Get_lookup by lia. by apply list_lookup_insert_eq. }
  assert ((a, a + N) ∈ links T) as Hlink.
  { rewrite (top_links _ _ _ HT). apply list_elem_of_fmap.
    exists a. split; [done|]. apply elem_of_seqZ. lia. }
  pose proof (Get_consumer_apps_at T p N a HN HT Ha) as Happ.
  destruct (exponential _ _) as [gap g3].
  destruct (second - 1) as [|c|c] eqn:Hsecond; simpl; intros [= <-]; simpl;
    exists a, k, first, second, m; rewrite Hsecond; split_and!; try done; try lia;
    intros _; simpl; (split; [done|apply Hset]).
Qed.

(** C6. One pass through the disconnection branch picks a consumer
    [app_indx] and one of its sessions, the [k]-th in content order, for
    content [first] with count [second].  If the decrement brings the count
    to zero, exactly one call is scheduled, at the disconnect-time cursor:
    the removal, at the infrastructure node [app_indx] the consumer is
    attached to, of the route for that content ([prefix] followed by the
    content id) whose next hop is the consumer's node [app_indx + N]; and
    the session is erased.  If the count stays non-zero, nothing is
    scheduled and the session keeps the decremented count. *)
Theorem scoped_removal_at_zero (p : Params) (N : Z) (T : Topo) (fuel : nat) (s : St) :
  1 ≤ N < 2 ^ 30 →
  build_topology p N = Some T →
  completes (disconnect_body T p fuel s) = true →
  disconnect_effect N T s (ctl_state (disconnect_body T p fuel s)).
Proof.
  intros HN Hb. destruct (build_topology_spec p N HN) as (T' & Hb' & HT).
  rewrite Hb in Hb'. injection Hb' as <-.
  destruct (disconnect_body T p fuel s) as [[s'|s']| |] eqn:Hbody; [|done..].
  intros _. simpl. by eapply disconnect_body_effect.
Qed.

End ScopedRemoval.

Lemma scoped_removal_at_zero_witness :
  let after s := ctl_state (disconnect_body replay_topology Replay.params 5 s) in
  disconnect_effect 3 replay_topology last_session (after last_session)
  ∧ sched (after last_session) = [(2500, RemoveRouteVia 0 "ndn:///prefix4" 3)]
  ∧ sched (after two_sessions) = [].
Proof.
  split_and!.
  - apply (scoped_removal_at_zero (H := Replay.platform) Replay.params 3
             replay_topology 5 last_session).
    + lia.
    + vm_compute. reflexivity.
    + vm_compute. reflexivity.
  - vm_compute. reflexivity.
  - vm_compute. reflexivity.
Defined.

(** ** Session bookkeeping *)

Lemma map_count_below k (m : int_map) : Forall (λ k', k < k') (m.*1) → map_count k m = 0.
Proof.
  induction m as [|[k' v] m IH]; simpl; [done|].
  intros [Hk Hm]%Forall_cons. destruct (Z.eqb_spec k k'); [lia|]. by apply IH.
Qed.

Lemma map_incr_count k0 k m :
  keys_sorted m →
  map_count k (map_incr k0 m) = map_count k m + (if bool_decide (k = k0) then 1 else 0).
Proof.
  unfold keys_sorted. induction m as [|[k' v] m IH]; simpl.
  - intros _. destruct (Z.eqb_spec k k0); case_bool_decide; lia.
  - intros [Hm Hall]%StronglySorted_inv.
    destruct (Z.ltb_spec k0 k') as [Hlt|Hge]; simpl.
    + destruct (Z.eqb_spec k k0) as [->|Hne].
      * rewrite bool_decide_eq_true_2 by done.
        destruct (Z.eqb_spec k0 k'); [lia|]. rewrite map_count_below; [done|].
        eapply Forall_impl; [exact Hall|]. simpl. intros; lia.
      * rewrite bool_decide_eq_false_2 by done. lia.
    + destruct (Z.eqb_spec k0 k') as [->|Hne]; simpl.
      * destruct (Z.eqb_spec k k'); case_bool_decide; lia.
      * destruct (Z.eqb_spec k k'); [|by apply IH].
        rewrite bool_decide_eq_false_2 by lia. lia.
Qed.

Lemma map_incr_keys k0 m k : k ∈ (map_incr k0 m).*1 → k = k0 ∨ k ∈ m.*1.
Proof.
  induction m as [|[k' v] m IH]; simpl.
  - rewrite list_elem_of_singleton. tauto.
  - destruct (k0 <? k'); simpl; [rewrite !elem_of_cons; tauto|].
    destruct (k0 =? k'); simpl; [rewrite !elem_of_cons; tauto|].
    rewrite !elem_of_cons. tauto.
Qed.

Lemma map_incr_sorted k0 m : keys_sorted m → keys_sorted (map_incr k0 m).
Proof.
  unfold keys_sorted. induction m as [|[k' v] m IH]; simpl.
  - intros _. repeat constructor.
  - intros Hs. pose proof Hs as [Hm Hall]%StronglySorted_inv.
    destruct (Z.ltb_spec k0 k') as [Hlt|Hge]; simpl.
    + constructor; [done|]. constructor; [done|].
      eapply Forall_impl; [exact Hall|]. simpl. intros; lia.
    + destruct (Z.eqb_spec k0 k') as [->|Hne]; simpl; [by constructor|].
      constructor; [by apply IH|]. apply Forall_forall. intros k Hk.
      apply map_incr_keys in Hk as [->|Hk]; [lia|].
      by eapply Forall_forall in Hall.
Qed.

Lemma sessions_bump cc a0 q a k :
  0 ≤ a0 < Z.of_nat (length cc) → 0 ≤ a →
  Forall keys_sorted cc →
  sessions (bump a0 q cc) a k
  = sessions cc a k + (if bool_decide (a = a0 ∧ k = to_int q) then 1 else 0).
Proof.
  intros Ha0 Ha Hs. unfold bump, sessions.
  destruct (Get cc a0) as [m|] eqn:Hm.
  - apply Get_Some in Hm as [_ Hm]. rewrite (Get_lookup (<[_ := _]> cc)) by done.
    destruct (decide (a = a0)) as [->|Hne].
    + rewrite list_lookup_insert_eq by lia. rewrite Get_lookup, Hm by done. simpl.
      rewrite map_incr_count by by eapply Forall_lookup_1 in Hs.
      destruct (decide (k = to_int q)) as [->|Hk].
      * by rewrite !bool_decide_eq_true_2 by done.
      * by rewrite !bool_decide_eq_false_2 by tauto.
    + rewrite list_lookup_insert_ne by lia. rewrite <- Get_lookup by done.
      rewrite bool_decide_eq_false_2 by tauto. lia.
  - rewrite Get_lookup in Hm by lia. apply lookup_ge_None in Hm. lia.
Qed.

Lemma bump_sorted a0 q cc : Forall keys_sorted cc → Forall keys_sorted (bump a0 q cc).
Proof.
  intros Hs. unfold bump. destruct (Get cc a0) as [m|] eqn:Hm; [|done].
  apply Get_Some in Hm as [_ Hm]. apply Forall_insert; [done|].
  apply map_incr_sorted. by eapply Forall_lookup_1 in Hs.
Qed.

Lemma length_bump a0 q cc : length (bump a0 q cc) = length cc.
Proof. unfold bump. destruct (Get cc a0); [apply length_insert|done]. Qed.

Section ConnectsOnly.
Context `{Platform}.

Lemma floods_app l l' : floods (l ++ l') = floods l + floods l'.
Proof. unfold floods. rewrite filter_app, length_app. lia. Qed.

Lemma connects_app T l l' a k : connects T (l ++ l') a k = connects T l a k + connects T l' a k.
Proof. unfold connects. rewrite filter_app, length_app. lia. Qed.

Lemma boundary_no_connect T p N a k :
  floods (boundary p N) = 0 ∧ connects T (boundary p N) a k = 0
  ∧ Forall (λ tc : Time * Call, is_scoped_removal tc.2 = false) (boundary p N).
Proof.
  unfold floods, connects, boundary. rewrite !filter_app, !length_app.
  assert (∀ (f : Call → bool) (l : list Z), (∀ n name, f (RemoveRoute n name) = false) →
    filter (λ tc : Time * Call, f tc.2)
      ((λ i, (Seconds (initialization_period_length p), RemoveRoute i "ndn:///prefix"))
         <$> l) = []) as Hrm.
  { intros f l Hf. induction l as [|i l IH]; [done|].
    rewrite fmap_cons, filter_cons, IH. simpl. by rewrite Hf. }
  rewrite !Hrm by done. split_and!; [done..|].
  apply Forall_app. split; [|by repeat constructor].
  apply Forall_fmap. by apply Forall_true.
Qed.

Lemma connect_step_connects_only T p N s s' :
  1 ≤ N < 2 ^ 30 → topology_of p N T →
  connect_step T s s' → connects_only T p s → connects_only T p s'.
Proof.
  intros HN HT (a0 & c0 & q & Ha0 & Hc0 & Hsched & Hnum & Hcc & Hdis) [Hsc Hrate Hcnt Hses Hlen Hsort].
  assert (NoDup (consumer_apps T)) as Hnd.
  { rewrite (top_apps _ _ _ HT). apply NoDup_fmap_2; [|apply NoDup_seqZ].
    intros x y [= ->]. done. }
  assert (GetN (consumer_apps T) = Z.of_nat (length (consumer_apps T))) as HGetN.
  { unfold GetN. apply u32_small. rewrite (top_apps _ _ _ HT), length_fmap, length_seqZ. lia. }
  split.
  - rewrite Hsched. apply Forall_app. split; [done|]. by repeat constructor.
  - by rewrite Hdis.
  - rewrite Hnum, Hsched, floods_app, Hcnt. unfold floods at 2. simpl.
    unfold u32. rewrite Zplus_mod_idemp_l. done.
  - intros a k Ha. rewrite Hcc, Hsched, connects_app, sessions_bump, Hses; [|lia..|done].
    f_equal. unfold connects. rewrite filter_cons, filter_nil. simpl.
    apply Get_Some in Hc0 as [_ Hc0].
    destruct (decide (a = a0)) as [->|Hne].
    + rewrite (bool_decide_eq_true_2 (Get _ _ = _)) by by rewrite Get_lookup by lia.
      destruct (decide (k = to_int q)) as [->|Hk].
      * by rewrite !bool_decide_eq_true_2 by done.
      * by rewrite !(bool_decide_eq_false_2 (_ ∧ _)), (bool_decide_eq_false_2 (to_int q = k))
          by (try tauto; done).
    + rewrite (bool_decide_eq_false_2 (Get _ _ = _)).
      * by rewrite bool_decide_eq_false_2 by tauto.
      * rewrite Get_lookup by lia. intros Hc. apply Hne.
        assert (Z.to_nat a = Z.to_nat a0) by by eapply NoDup_lookup. lia.
  - by rewrite Hcc, length_bump.
  - rewrite Hcc. by apply bump_sorted.
Qed.

Lemma initial_connects_only T p N seed :
  1 ≤ N < 2 ^ 30 → topology_of p N T → connects_only T p (initial T p seed).
Proof.
  intros HN HT. split; simpl; [done..| | |].
  - intros a k Ha. unfold sessions, connects. simpl.
    destruct (Get _ a) as [m|] eqn:Hm; [|done].
    apply Get_Some in Hm as [_ Hm]. by apply lookup_replicate in Hm as [-> _].
  - rewrite length_replicate. unfold GetN. rewrite u32_small; [lia|].
    rewrite (top_apps _ _ _ HT), length_fmap, length_seqZ. lia.
  - apply Forall_replicate. constructor.
Qed.

(** C4. In every run that passes the argument check, wherever it has
    got to: the disconnection loop as written returns at once from any
    state; no scoped route removal has been scheduled; the disconnect
    distribution still carries the rate it was constructed with; the
    connection counter equals the number of connect floods scheduled so far
    (the counter being a [uint32_t], modulo 2^32: exactly that number as
    long as it is below 2^32); and each session count equals the number of
    connects of that consumer for that content, so that none was ever
    decremented. *)
Theorem disconnect_branch_unreachable (argc : Z) (p : Params) (N seed : Z) (fuel : nat) :
  10 ≤ argc → 1 ≤ N < 2 ^ 30 →
  ∃ T r,
    main argc p N seed fuel = Driven T r
    ∧ (∀ f s, while_do f (λ _, false) (disconnect_body T p) s = Ok s)
    ∧ connects_only T p (state_of r)
    ∧ (floods (sched (state_of r)) < 2 ^ 32 →
       num_connected (state_of r) = floods (sched (state_of r))).
Proof.
  intros Hargc HN. unfold main. destruct (Z.ltb_spec argc 10); [lia|].
  destruct (build_topology_spec p N HN) as (T & -> & HT).
  eexists _, _. split; [done|]. split; [intros; apply while_do_false|].
  assert (connects_only T p (state_of (schedule_events T p seed fuel))) as Hco;
    [|split; [done|]; intros Hlt; rewrite (co_count _ _ _ Hco);
      apply u32_small; unfold floods in *; lia].
  apply schedule_events_invariant.
  - by eapply initial_connects_only.
  - intros s Hs. destruct (connect_body_cases T s) as [->|(s' & -> & Hstep)]; [done|].
    by eapply connect_step_connects_only.
  - intros s [Hsc Hrate Hcnt Hses Hlen Hsort].
    rewrite (disconnect_producer_spec T p N s HN HT). simpl.
    split; simpl; [|done| | |done|done].
    + apply Forall_app. split; [done|]. apply (boundary_no_connect T p N 0 0).
    + rewrite floods_app, (proj1 (boundary_no_connect T p N 0 0)), Z.add_0_r. done.
    + intros a k Ha.
      rewrite connects_app, (proj1 (proj2 (boundary_no_connect T p N a k))), Z.add_0_r.
      by apply Hses.
  - intros s [Hsc Hrate Hcnt Hses Hlen Hsort]. by split.
  - intros f s Hs.
    destruct (observe_body_cases T p f s) as [->|(s' & -> & Hstep)]; [done|].
    by eapply connect_step_connects_only.
  - intros t s [Hsc Hrate Hcnt Hses Hlen Hsort]. by split.
Qed.

End ConnectsOnly.

Lemma disconnect_branch_unreachable_witness :
  ∃ T r,
    main (H := Replay.platform) 10 Replay.params 3 7 100 = Driven T r
    ∧ rng_exp_dis (state_of r) = {| lambda := 1%float |}
    ∧ num_connected (state_of r) = u32 (floods (sched (state_of r))).
Proof.
  destruct (disconnect_branch_unreachable (H := Replay.platform)
              10 Replay.params 3 7 100 ltac:(lia) ltac:(lia))
    as (T & r & Hrun & _ & Hco & _).
  exists T, r. split; [exact Hrun|]. split; [apply Hco|apply Hco].
Defined.

(** ** Replayed runs *)

Example u32_wraps : u32 (0 - 1) = 4294967295.
Proof. reflexivity. Qed.

Example to_string_of_int : to_string 42 = "42" ∧ to_string (-7) = "-7".
Proof. split; vm_compute; reflexivity. Qed.

(** Four connects in the initialization second, the phase boundary at
    1000 ms, four connects in the observation second. *)
Example replayed_schedule :
  calls_of (main (H := Replay.platform) 10 Replay.params 3 7 100)
  = [ (200, FloodPacketWithSeq (consumer_app 3) 0 2);
      (450, FloodPacketWithSeq (consumer_app 4) 1 2);
      (700, FloodPacketWithSeq (consumer_app 3) 2 2);
      (950, FloodPacketWithSeq (consumer_app 4) 3 2);
      (1000, RemoveRoute 0 "ndn:///prefix");
      (1000, RemoveRoute 1 "ndn:///prefix");
      (1000, RemoveRoute 2 "ndn:///prefix");
      (1000, FailLink 2 5);
      (1200, FloodPacketWithSeq (consumer_app 3) 4 2);
      (1450, FloodPacketWithSeq (consumer_app 4) 0 2);
      (1700, FloodPacketWithSeq (consumer_app 3) 1 2);
      (1950, FloodPacketWithSeq (consumer_app 4) 2 2) ].
Proof. vm_compute. reflexivity. Qed.

(** With an initialization period of 0.1 s the first connect still fires at
    200 ms, after the phase boundary at 100 ms. *)
Example replayed_short_schedule :
  take 5 (calls_of (main (H := Replay.platform) 10 Replay.short_params 3 7 100))
  = [ (200, FloodPacketWithSeq (consumer_app 3) 0 2);
      (100, RemoveRoute 0 "ndn:///prefix");
      (100, RemoveRoute 1 "ndn:///prefix");
      (100, RemoveRoute 2 "ndn:///prefix");
      (100, FailLink 2 5) ].
Proof. vm_compute. reflexivity. Qed.

(** A topology of a single node has no consumer: the first draw divides by
    zero. *)
Example single_node_faults :
  returned (main (H := Replay.platform) 10 Replay.params 1 7 100) = false
  ∧ calls_of (main (H := Replay.platform) 10 Replay.params 1 7 100) = [].
Proof. split; vm_compute; reflexivity. Qed.

(** The store of capacity 2 after [put A; put B; get A]: [put C] evicts [B]. *)
Example lru_evicts_least_recent :
  (put 3 (run [OpPut 1; OpPut 2; OpGet 1] {| capacity := 2; entries := [] |})).1 = Some 2.
Proof. reflexivity. Qed.

(** One disconnect of the last session of consumer 0 for content 4. *)
Example replayed_disconnect :
  let s' := ctl_state (disconnect_body replay_topology Replay.params 5 last_session) in
  sched s' = [(2500, RemoveRouteVia 0 "ndn:///prefix4" 3)]
  ∧ connected_content s' = [[]; []]
  ∧ num_connected s' = 0.
Proof. split_and!; vm_compute; reflexivity. Qed.

(** * Further properties of the scenario program *)

(** ** The topology set-up (lines 176-246) *)

(** The two node maps after the attachment loop, key by key. *)
Lemma build_topology_maps p N T :
  1 ≤ N < 2 ^ 30 → build_topology p N = Some T →
  (∀ k, app_to_node T !! k = if bool_decide (0 ≤ k < N) then Some (k + N) else None)
  ∧ (∀ k, access_to_router T !! k
          = if bool_decide (N ≤ k < 2 * N) then Some (k - N) else None).
Proof.
  intros HN. unfold build_topology, GetN, Create, NodeContainer, Node.
  repeat first
    [ rewrite length_seqZ | rewrite Z2Nat.id by lia
    | rewrite (u32_small N) by lia | rewrite (u32_small (N - 1)) by lia ].
  replace (N + (N - 1)) with (2 * N - 1) by lia.
  assert (seqZ 0 N ++ seqZ N (N - 1) ++ seqZ (2 * N - 1) 1 = seqZ 0 (2 * N)) as Hnodes.
  { replace (2 * N) with (N + ((N - 1) + 1)) at 2 by lia.
    rewrite seqZ_app by lia. f_equal.
    rewrite seqZ_app by lia. do 2 f_equal; lia. }
  rewrite Hnodes.
  match goal with |- context [for_each (seqZ 0 N) ?body ([], ∅, ∅)] =>
    destruct (for_each_invariant
      (λ i '(ls, a2n, a2r),
         (∀ k, (a2n : gmap Z Z) !! k
               = if bool_decide (0 ≤ k < i) then Some (k + N) else None)
         ∧ (∀ k, (a2r : gmap Z Z) !! k
                 = if bool_decide (N ≤ k < N + i) then Some (k - N) else None))
      body ([], ∅, ∅) N) as ([[ls a2n] a2r] & Hloop & Ha2n & Ha2r)
  end.
  { lia. }
  { split; intros k; rewrite lookup_empty; by rewrite bool_decide_eq_false_2 by lia. }
  { intros i [[ls a2n] a2r] Hi (Ha2n & Ha2r).
    rewrite (u32_small (i + N)), !to_int_small, !Get_seqZ by lia. simpl.
    eexists. split; [done|]. split; intros k.
    - destruct (decide (k = i)) as [->|Hne].
      + rewrite lookup_insert_eq. by rewrite bool_decide_eq_true_2 by lia.
      + rewrite lookup_insert_ne, Ha2n by done.
        do 2 case_bool_decide; (done || lia).
    - destruct (decide (k = i + N)) as [->|Hne].
      + rewrite lookup_insert_eq. rewrite bool_decide_eq_true_2 by lia.
        f_equal. lia.
      + rewrite lookup_insert_ne, Ha2r by lia.
        do 2 case_bool_decide; (done || lia). }
  rewrite Hloop. simpl.
  repeat (destruct (for_each _ _ _); simpl; try done).
  intros [= <-]. simpl. split; intros k.
  - apply Ha2n.
  - rewrite Ha2r. do 2 case_bool_decide; (done || lia).
Qed.

Lemma build_topology_producer_apps p N T :
  build_topology p N = Some T → producer_apps T = producer_app <$> producer_node T.
Proof.
  unfold build_topology. intros Hb.
  repeat match goal with
  | x : (_ * _)%type |- _ => destruct x; simpl in Hb
  | _ : context [for_each ?a ?b ?c] |- _ =>
      destruct (for_each a b c) as [?|]; simpl in Hb; try discriminate Hb
  end.
  all: try discriminate Hb.
  injection Hb as <-. reflexivity.
Qed.

Lemma built_topology p N T :
  1 ≤ N < 2 ^ 30 → build_topology p N = Some T → topology_of p N T.
Proof.
  intros HN Hb. destruct (build_topology_spec p N HN) as (T' & Hb' & HT).
  rewrite Hb in Hb'. by injection Hb' as <-.
Qed.

(** X1. For a topology file of [N] nodes the program ends up with exactly
    [2N] distinct nodes: the [N] infrastructure nodes, [N - 1] consumer
    nodes and one producer node, in this order in [nodes]; the three
    containers are disjoint, and [nodes.Get(i)] is node [i] for every index
    below [2N] and undefined from [2N] on. *)
Theorem nodes_partition (p : Params) (N : Z) (T : Topo) :
  1 ≤ N < 2 ^ 30 →
  build_topology p N = Some T →
  nodes T = infrastructure_nodes T ++ consumer_nodes T ++ producer_node T
  ∧ NoDup (nodes T)
  ∧ num_infrastructure_nodes T = N
  ∧ GetN (infrastructure_nodes T) = N
  ∧ GetN (consumer_nodes T) = N - 1
  ∧ GetN (producer_node T) = 1
  ∧ GetN (nodes T) = 2 * N
  ∧ (∀ i, Get (nodes T) i = if bool_decide (0 ≤ i < 2 * N) then Some i else None).
Proof.
  intros HN Hb. destruct (built_topology p N T HN Hb).
  rewrite top_nodes0, top_infrastructure0, top_consumers0, top_producer0, top_N0.
  unfold GetN. rewrite !length_seqZ. simpl length.
  rewrite !Z2Nat.id, !u32_small by lia. split_and!; try done.
  - replace (2 * N) with (N + ((N - 1) + 1)) by lia.
    rewrite seqZ_app by lia. f_equal. rewrite seqZ_app by lia. f_equal.
    rewrite seqZ_cons by lia. rewrite seqZ_nil by lia. f_equal. lia.
  - apply NoDup_seqZ.
  - intros i. case_bool_decide as Hi.
    + by rewrite Get_seqZ by lia.
    + unfold Get. rewrite length_seqZ.
      destruct (Z.leb_spec 0 i), (Z.ltb_spec i (Z.of_nat (Z.to_nat (2 * N)))); simpl;
        try done. lia.
Qed.

Lemma nodes_partition_witness :
  nodes replay_topology = [0; 1; 2] ++ [3; 4] ++ [5]
  ∧ Get (nodes replay_topology) 5 = Some 5
  ∧ Get (nodes replay_topology) 6 = None.
Proof.
  destruct (nodes_partition Replay.params 3 replay_topology) as (Hn & _ & _ & _ & _ & _ & _ & HGet);
    [lia|vm_compute; reflexivity|].
  split_and!.
  - rewrite Hn. vm_compute. reflexivity.
  - by rewrite HGet.
  - by rewrite HGet.
Defined.

(** X2. The attachment loop creates exactly one point-to-point link per
    infrastructure node: node [a] is linked to node [a + N] and to no other
    user node.  The [N] links are distinct, each joins an infrastructure
    node to a consumer or producer node, and every consumer or producer
    node hangs off exactly one infrastructure node. *)
Theorem attachment_links (p : Params) (N : Z) (T : Topo) :
  1 ≤ N < 2 ^ 30 →
  build_topology p N = Some T →
  (∀ a b, (a, b) ∈ links T ↔ 0 ≤ a < N ∧ b = a + N)
  ∧ NoDup (links T)
  ∧ Z.of_nat (length (links T)) = N
  ∧ (∀ a b, (a, b) ∈ links T →
       a ∈ infrastructure_nodes T ∧ (b ∈ consumer_nodes T ∨ b ∈ producer_node T))
  ∧ (∀ b, b ∈ consumer_nodes T ∨ b ∈ producer_node T →
       ∃ a, (a, b) ∈ links T ∧ ∀ a', (a', b) ∈ links T → a' = a).
Proof.
  intros HN Hb. destruct (built_topology p N T HN Hb).
  assert (∀ a b, (a, b) ∈ links T ↔ 0 ≤ a < N ∧ b = a + N) as Hlinks.
  { intros a b. rewrite top_links0, list_elem_of_fmap. split.
    - intros (i & [= -> ->] & Hi). apply elem_of_seqZ in Hi. lia.
    - intros [Ha ->]. exists a. split; [done|]. apply elem_of_seqZ. lia. }
  split_and!; [done| | | |].
  - rewrite top_links0. apply NoDup_fmap_2; [|apply NoDup_seqZ].
    by intros i j [= ->].
  - rewrite top_links0, length_fmap, length_seqZ. lia.
  - intros a b [Ha ->]%Hlinks.
    rewrite top_infrastructure0, top_consumers0, top_producer0.
    rewrite !elem_of_seqZ, list_elem_of_singleton. lia.
  - intros b Hbn. exists (b - N). split.
    + apply Hlinks. revert Hbn.
      rewrite top_consumers0, top_producer0, elem_of_seqZ, list_elem_of_singleton. lia.
    + intros a' [_ ->]%Hlinks. lia.
Qed.

Lemma attachment_links_witness :
  (1, 4) ∈ links replay_topology ∧ (1, 5) ∉ links replay_topology.
Proof.
  destruct (attachment_links Replay.params 3 replay_topology) as (Hlinks & _);
    [lia|vm_compute; reflexivity|].
  rewrite !Hlinks. lia.
Defined.

(** X3. The two index maps filled by the attachment loop mirror the links:
    [app_to_node] holds [a -> b] exactly when [a] and [b] are linked, and
    [access_to_router] holds [b -> a] for exactly the same pairs.  So going
    from an infrastructure index to its user node and back is the identity,
    and neither map has a key outside the links. *)
Theorem node_maps_mirror_links (p : Params) (N : Z) (T : Topo) :
  1 ≤ N < 2 ^ 30 →
  build_topology p N = Some T →
  (∀ a b, app_to_node T !! a = Some b ↔ (a, b) ∈ links T)
  ∧ (∀ a b, access_to_router T !! b = Some a ↔ (a, b) ∈ links T)
  ∧ (∀ a, 0 ≤ a < N →
       map_at (access_to_router T) (map_at (app_to_node T) a) = a)
  ∧ (∀ b, N ≤ b < 2 * N →
       map_at (app_to_node T) (map_at (access_to_router T) b) = b).
Proof.
  intros HN Hb. destruct (build_topology_maps p N T HN Hb) as [Ha2n Ha2r].
  destruct (built_topology p N T HN Hb).
  assert (∀ a b, (a, b) ∈ links T ↔ 0 ≤ a < N ∧ b = a + N) as Hlinks.
  { intros a b. rewrite top_links0, list_elem_of_fmap. split.
    - intros (i & [= -> ->] & Hi). apply elem_of_seqZ in Hi. lia.
    - intros [Ha ->]. exists a. split; [done|]. apply elem_of_seqZ. lia. }
  split_and!.
  - intros a b. rewrite Hlinks, Ha2n. case_bool_decide; split.
    + intros [= <-]. lia.
    + by intros [_ ->].
    + done.
    + lia.
  - intros a b. rewrite Hlinks, Ha2r. case_bool_decide; split.
    + intros [= <-]. lia.
    + intros [_ ->]. f_equal. lia.
    + done.
    + lia.
  - intros a Ha. unfold map_at.
    rewrite Ha2n, bool_decide_eq_true_2 by lia. simpl.
    rewrite Ha2r, bool_decide_eq_true_2 by lia. simpl. lia.
  - intros b Hb'. unfold map_at.
    rewrite Ha2r, bool_decide_eq_true_2 by lia. simpl.
    rewrite Ha2n, bool_decide_eq_true_2 by lia. simpl. lia.
Qed.

Lemma node_maps_mirror_links_witness :
  map_at (access_to_router replay_topology) (map_at (app_to_node replay_topology) 2) = 2
  ∧ map_at (app_to_node replay_topology) (map_at (access_to_router replay_topology) 4) = 4.
Proof.
  destruct (node_maps_mirror_links Replay.params 3 replay_topology)
    as (_ & _ & Hthere & Hback); [lia|vm_compute; reflexivity|].
  split; [apply Hthere|apply Hback]; lia.
Defined.

(** X4. One [ConsumerSit] application is installed on each consumer node,
    in container order, and one [Producer] on the producer node, all for
    the prefix [/prefix].  Consumer application [i] runs on the user node
    that [app_to_node] gives for [i], which hangs off infrastructure node
    [i]; no consumer application runs on the producer node, which hangs off
    the last infrastructure node. *)
Theorem application_placement (p : Params) (N : Z) (T : Topo) :
  1 ≤ N < 2 ^ 30 →
  build_topology p N = Some T →
  consumer_apps T = consumer_app <$> consumer_nodes T
  ∧ producer_apps T = producer_app <$> producer_node T
  ∧ GetN (consumer_apps T) = N - 1
  ∧ (∀ i app, Get (consumer_apps T) i = Some app →
       0 ≤ i < N - 1
       ∧ app_node app = map_at (app_to_node T) i
       ∧ (i, app_node app) ∈ links T
       ∧ app_node app ∉ producer_node T)
  ∧ (∀ app, app ∈ producer_apps T →
       app_node app = map_at (app_to_node T) (N - 1)
       ∧ (N - 1, app_node app) ∈ links T).
Proof.
  intros HN Hb. destruct (build_topology_maps p N T HN Hb) as [Ha2n Ha2r].
  pose proof (build_topology_producer_apps p N T Hb) as Hprod.
  destruct (built_topology p N T HN Hb).
  assert (∀ a b, (a, b) ∈ links T ↔ 0 ≤ a < N ∧ b = a + N) as Hlinks.
  { intros a b. rewrite top_links0, list_elem_of_fmap. split.
    - intros (i & [= -> ->] & Hi). apply elem_of_seqZ in Hi. lia.
    - intros [Ha ->]. exists a. split; [done|]. apply elem_of_seqZ. lia. }
  split_and!.
  - by rewrite top_apps0, top_consumers0.
  - done.
  - unfold GetN. rewrite top_apps0, length_fmap, length_seqZ, Z2Nat.id by lia.
    apply u32_small. lia.
  - intros i app Hget.
    assert (0 ≤ i < N - 1) as Hi.
    { unfold Get in Hget. rewrite top_apps0, length_fmap, length_seqZ in Hget.
      destruct (Z.leb_spec 0 i), (Z.ltb_spec i (Z.of_nat (Z.to_nat (N - 1))));
        simpl in Hget; try done. lia. }
    rewrite (Get_consumer_apps_at T p N i) in Hget by (done || lia).
    injection Hget as <-. simpl. unfold map_at.
    rewrite Ha2n, bool_decide_eq_true_2 by lia. simpl.
    split_and!; [lia|lia|done| |].
    + apply Hlinks. lia.
    + rewrite top_producer0, list_elem_of_singleton. lia.
  - intros app. rewrite Hprod, top_producer0, list_elem_of_fmap.
    intros (n & -> & ->%list_elem_of_singleton). simpl. unfold map_at.
    rewrite Ha2n, bool_decide_eq_true_2 by lia. simpl.
    split; [lia|]. apply Hlinks. lia.
Qed.

Lemma application_placement_witness :
  consumer_apps replay_topology = [consumer_app 3; consumer_app 4]
  ∧ producer_apps replay_topology = [producer_app 5].
Proof.
  destruct (application_placement Replay.params 3 replay_topology)
    as (Hcons & Hprod & _); [lia|vm_compute; reflexivity|].
  split.
  - rewrite Hcons. vm_compute. reflexivity.
  - rewrite Hprod. vm_compute. reflexivity.
Defined.

(** ** The scheduling loops (lines 253-349) *)

Section Scheduling.
Context `{Platform}.

(** Loop rules that use the loop test: the body only ever starts in a state
    that passed it, the first pass of a [do ... while] apart. *)
Lemma do_while_rule (I : St → Prop) fuel body cond s :
  I (state_of (body s)) →
  (∀ s', I s' → cond s' = true → I (state_of (body s'))) →
  I (state_of (do_while fuel body cond s)).
Proof.
  intros Hfirst Hstep. revert s Hfirst.
  induction fuel as [|fuel IH]; intros s Hfirst; simpl;
    destruct (body s) as [s1|s1|s1]; simpl in *; try done;
    destruct (cond s1) eqn:Hc; simpl; try done.
  apply IH. by apply Hstep.
Qed.

Lemma while_do_rule (I : St → Prop) fuel cond body s :
  I s →
  (∀ f s', I s' → cond s' = true → I (ctl_state (body f s'))) →
  I (state_of (while_do fuel cond body s)).
Proof.
  intros Hs Hstep. revert s Hs.
  induction fuel as [|fuel IH]; intros s Hs; simpl;
    destruct (cond s) eqn:Hc; simpl; try done.
  specialize (Hstep fuel s Hs Hc).
  destruct (body fuel s) as [[s1|s1]|s1|s1]; simpl in *; try done.
  by apply IH.
Qed.

Lemma do_while_no_fault fuel body cond s :
  (∀ s, no_fault (body s)) → no_fault (do_while fuel body cond s).
Proof.
  intros Hbody. revert s. induction fuel as [|fuel IH]; intros s; simpl;
    pose proof (Hbody s) as Hs; destruct (body s) as [s1|s1|s1]; try done;
    by destruct (cond s1).
Qed.

Lemma while_do_no_fault fuel cond body s :
  (∀ f s, no_fault (body f s)) → no_fault (while_do fuel cond body s).
Proof.
  intros Hbody. revert s. induction fuel as [|fuel IH]; intros s; simpl;
    destruct (cond s); try done.
  pose proof (Hbody fuel s) as Hs.
  by destruct (body fuel s) as [[s1|s1]|s1|s1].
Qed.

Lemma Get_elem_of {A} (c : list A) i x : Get c i = Some x → x ∈ c.
Proof. intros [_ Hx]%Get_Some. by eapply list_elem_of_lookup_2. Qed.

Lemma connect_body_consumer T s :
  grows_by (consumer_flood T) s (state_of (connect_body T s)).
Proof.
  unfold connect_body. destruct (rnd_gen (gen s)) as [r g1].
  destruct (umod _ _) as [app_indx|]; [|apply grows_by_refl].
  destruct (Get _ _) as [consumer|] eqn:Hget; [|apply grows_by_refl].
  destruct (GetNextSeq _) as [c z1]. destruct (exponential _ _) as [gap g2].
  eapply grows_by_snoc; [done|]. intros a q h [= <- <- <-].
  split; [by eapply Get_elem_of|apply u32_range].
Qed.

Lemma observe_body_consumer T p f s :
  grows_by (consumer_flood T) s (ctl_state (observe_body T p f s)).
Proof.
  unfold observe_body. destruct (rnd_gen (gen s)) as [r g1].
  destruct (umod _ _) as [app_indx|]; [|apply grows_by_refl].
  destruct (Get _ _) as [consumer|] eqn:Hget; [|apply grows_by_refl].
  destruct (GetNextSeq _) as [c z1]. destruct (exponential _ _) as [gap g2].
  rewrite while_do_false. eapply grows_by_snoc; [done|]. intros a q h [= <- <- <-].
  split; [by eapply Get_elem_of|apply u32_range].
Qed.

(** X5. Whatever the parameters, the seed and the point a run has reached,
    every flood handed to the simulator is issued through one of the
    installed consumer applications (never the producer application) and
    carries a content index in [uint32_t] range. *)
Theorem floods_come_from_consumers (argc : Z) (p : Params) (N seed : Z) (fuel : nat)
    (T : Topo) :
  topo_of (main argc p N seed fuel) = Some T →
  Forall (consumer_flood T) (calls_of (main argc p N seed fuel)).
Proof.
  unfold main. destruct (argc <? 10); [done|].
  destruct (build_topology p N) as [T'|]; [|done]. simpl. intros [= ->].
  apply (schedule_events_invariant (λ s, Forall (consumer_flood T) (sched s))).
  - constructor.
  - intros s Hs. by eapply Forall_grows; [apply connect_body_consumer| |].
  - intros s Hs. eapply Forall_grows; [apply disconnect_producer_grows| |done].
    by intros tc [(n & name & E)|(a & b & E)] consumer q h E'; rewrite E in E'.
  - done.
  - intros f s Hs. by eapply Forall_grows; [apply observe_body_consumer| |].
  - done.
Qed.

Lemma connect_body_no_fault T p N s :
  2 ≤ N < 2 ^ 30 → topology_of p N T → ∃ s', connect_body T s = Ok s'.
Proof.
  intros HN HT. unfold connect_body. destruct (rnd_gen (gen s)) as [r g1].
  assert (0 ≤ r mod (N - 1) < N - 1) as Hr by (apply Z.mod_pos_bound; lia).
  destruct (Get_consumer_apps T p N (r mod (N - 1)) HN HT Hr) as [HGetN HGet].
  rewrite HGetN, umod_Some, HGet by lia.
  destruct (GetNextSeq _) as [c z1]. destruct (exponential _ _) as [gap g2].
  by eexists.
Qed.

Lemma observe_body_no_fault T p N f s :
  2 ≤ N < 2 ^ 30 → topology_of p N T → ∃ s', observe_body T p f s = Ok (Next s').
Proof.
  intros HN HT. unfold observe_body. destruct (rnd_gen (gen s)) as [r g1].
  assert (0 ≤ r mod (N - 1) < N - 1) as Hr by (apply Z.mod_pos_bound; lia).
  destruct (Get_consumer_apps T p N (r mod (N - 1)) HN HT Hr) as [HGetN HGet].
  rewrite HGetN, umod_Some, HGet by lia.
  destruct (GetNextSeq _) as [c z1]. destruct (exponential _ _) as [gap g2].
  rewrite while_do_false. by eexists.
Qed.

Lemma schedule_events_no_fault T p N seed fuel :
  2 ≤ N < 2 ^ 30 → topology_of p N T → no_fault (schedule_events T p seed fuel).
Proof.
  intros HN HT. unfold schedule_events.
  pose proof (do_while_no_fault fuel (connect_body T)
    (λ s, (connect_time s <? initialization_period_length p)%float)
    (initial T p seed)) as H1.
  destruct (do_while _ _ _ _) as [s1|s1|s1]; simpl.
  - rewrite (disconnect_producer_spec T p N s1) by (done || lia).
    pose proof (while_do_no_fault fuel
      (λ s, (connect_time s <?
               observation_period_length p + initialization_period_length p)%float)
      (observe_body T p)
      (enter_observation p (with_sched (sched s1 ++ boundary p N) s1))) as H2.
    destruct (while_do _ _ _ _) as [s3|s3|s3]; simpl; [done| |done].
    apply H2. intros f s. by destruct (observe_body_no_fault T p N f s HN HT) as [s' ->].
  - apply H1. intros s. by destruct (connect_body_no_fault T p N s HN HT) as [s' ->].
  - done.
Qed.

(** X6. With enough arguments the program runs into undefined behaviour
    exactly when the topology file describes a single node: there is then
    no consumer application, the first draw of an application index divides
    by zero, and nothing has been scheduled.  With two or more nodes every
    index the program computes is in range, whatever the random draws. *)
Theorem faults_exactly_without_consumers (argc : Z) (p : Params) (N seed : Z)
    (fuel : nat) :
  10 ≤ argc → 1 ≤ N < 2 ^ 30 →
  (faulted (main argc p N seed fuel) = true ↔ N = 1)
  ∧ (N = 1 → calls_of (main argc p N seed fuel) = []).
Proof.
  intros Hargc HN. unfold main. destruct (Z.ltb_spec argc 10); [lia|].
  destruct (build_topology_spec p N HN) as (T & -> & HT).
  destruct (decide (N = 1)) as [->|Hne].
  - assert (schedule_events T p seed fuel = Fault (initial T p seed)) as ->.
    { unfold schedule_events.
      assert (connect_body T (initial T p seed) = Fault (initial T p seed)) as Hbody.
      { unfold connect_body. destruct (rnd_gen _) as [r g1].
        destruct HT. by rewrite top_apps0. }
      destruct fuel; simpl; by rewrite Hbody. }
    done.
  - pose proof (schedule_events_no_fault T p N seed fuel ltac:(lia) HT) as Hnf.
    simpl. split; [|lia]. split; [|lia].
    by destruct (schedule_events T p seed fuel) as [s|s|s].
Qed.

End Scheduling.

Lemma floods_come_from_consumers_witness :
  Forall (consumer_flood replay_topology)
    (calls_of (main (H := Replay.platform) 10 Replay.params 3 7 100)).
Proof.
  apply (floods_come_from_consumers (H := Replay.platform) 10 Replay.params 3 7 100).
  vm_compute. reflexivity.
Defined.

Lemma faults_exactly_without_consumers_witness :
  faulted (main (H := Replay.platform) 10 Replay.params 3 7 100) ≠ true
  ∧ calls_of (main (H := Replay.platform) 10 Replay.params 1 7 100) = [].
Proof.
  split.
  - destruct (faults_exactly_without_consumers (H := Replay.platform)
                10 Replay.params 3 7 100) as [[Hf _] _]; [lia|lia|].
    intros E. apply Hf in E. lia.
  - apply (faults_exactly_without_consumers (H := Replay.platform)
             10 Replay.params 1 7 100); [lia|lia|reflexivity].
Defined.

(** ** Scheduled times and the phase boundary (lines 265-291, 349) *)

Section Horizon.
Context `{Platform}.

Lemma filter_removal_flood2 (l : list (Time * Call)) :
  Forall flood2 l → filter (λ tc, is_removal tc.2) l = [].
Proof.
  induction 1 as [|tc l (c & q & E) Hl IH]; [done|].
  rewrite filter_cons, IH. by rewrite E.
Qed.

Lemma filter_removal_boundary p N :
  filter (λ tc, is_removal tc.2) (boundary p N)
  = removal_at (Seconds (initialization_period_length p)) <$> seqZ 0 N.
Proof.
  unfold boundary. rewrite filter_app.
  assert (∀ l : list Z,
    filter (λ tc : Time * Call, is_removal tc.2)
      ((λ i, (Seconds (initialization_period_length p), RemoveRoute i "ndn:///prefix"))
         <$> l) = removal_at (Seconds (initialization_period_length p)) <$> l) as Hrm.
  { induction l as [|i l IH]; [done|].
    by rewrite !fmap_cons, filter_cons, IH. }
  rewrite Hrm. by rewrite app_nil_r.
Qed.

(** X7. The unscoped removal of the producer's prefix is scheduled once for
    each infrastructure node, in container order, at the end of the
    initialization period, and nowhere else: a run that reaches
    [Simulator::Run] has scheduled exactly these removals, and a run that
    stops earlier has scheduled all of them or none. *)
Theorem one_removal_per_infrastructure_node (argc : Z) (p : Params) (N seed : Z)
    (fuel : nat) :
  10 ≤ argc → 1 ≤ N < 2 ^ 30 →
  let run := main argc p N seed fuel in
  let removals := filter (λ tc, is_removal tc.2) (calls_of run) in
  ∃ T, topo_of run = Some T
    ∧ (removals = []
       ∨ removals = removal_at (Seconds (initialization_period_length p))
                      <$> infrastructure_nodes T)
    ∧ (returned run = true →
       removals = removal_at (Seconds (initialization_period_length p))
                    <$> infrastructure_nodes T).
Proof.
  intros Hargc HN. unfold main. destruct (Z.ltb_spec argc 10); [lia|].
  destruct (build_topology_spec p N) as (T & -> & HT); [lia|].
  simpl. exists T. split; [done|].
  rewrite (top_infrastructure _ _ _ HT). split.
  - destruct (schedule_events_partial T p N seed fuel) as (l1 & l2 & F1 & F2 & [->| ->]);
      [lia|done| |].
    + left. by apply filter_removal_flood2.
    + right.
      rewrite !filter_app, (filter_removal_flood2 l1), (filter_removal_flood2 l2),
        filter_removal_boundary by done.
      by rewrite app_nil_r.
  - destruct (schedule_events T p seed fuel) as [s| |] eqn:Hs; [|done..]. intros _.
    destruct (schedule_events_complete T p N seed fuel s) as (l1 & l2 & E & F1 & F2);
      [lia|done|done|].
    simpl. rewrite E.
    rewrite !filter_app, (filter_removal_flood2 l1), (filter_removal_flood2 l2),
      filter_removal_boundary by done.
    by rewrite app_nil_r.
Qed.

(** The times of the calls of a run, wherever it has got to. *)
Lemma schedule_events_times T p N seed fuel :
  1 ≤ N < 2 ^ 30 → topology_of p N T →
  ∃ l1 l2,
    Forall flood2 l1 ∧ Forall flood2 l2
    ∧ (sched (state_of (schedule_events T p seed fuel)) = l1
       ∨ sched (state_of (schedule_events T p seed fuel)) = l1 ++ boundary p N ++ l2)
    ∧ (∀ s, schedule_events T p seed fuel = Ok s → sched s = l1 ++ boundary p N ++ l2)
    ∧ Forall (before (initialization_period_length p)) (tail l1)
    ∧ Forall (before (observation_period_length p + initialization_period_length p)%float) l2
    ∧ (∀ tc, head l2 = Some tc →
         tc.1 = Seconds (initialization_period_length p + 0.2)%float).
Proof.
  intros HN HT. unfold schedule_events.
  pose proof (do_while_rule
    (λ s, Forall flood2 (sched s)
          ∧ Forall (before (initialization_period_length p)) (tail (sched s)))
    fuel (connect_body T)
    (λ s, (connect_time s <? initialization_period_length p)%float)
    (initial T p seed)) as Hinit.
  destruct Hinit as [F1 B1].
  { destruct (connect_body_cases T (initial T p seed))
      as [->|(s' & -> & a & c & q & _ & _ & Hs' & _)]; simpl.
    - by split; constructor.
    - rewrite Hs'. simpl. split; [|constructor].
      constructor; [|constructor]. by eexists _, _. }
  { intros s [F B] Hc.
    destruct (connect_body_cases T s) as [->|(s' & -> & a & c & q & _ & _ & Hs' & _)];
      simpl; [done|].
    rewrite Hs'. split.
    - apply Forall_app. split; [done|]. constructor; [|constructor]. by eexists _, _.
    - destruct (sched s) as [|tc l]; simpl in *; [constructor|].
      apply Forall_app. split; [done|]. constructor; [|constructor].
      by exists (connect_time s). }
  destruct (do_while _ _ _ _) as [s1|s1|s1]; simpl in F1, B1;
    [|exists (sched s1), []; split_and!; (done || eauto || constructor)..].
  rewrite (disconnect_producer_spec T p N s1 HN HT).
  pose proof (while_do_rule
    (λ s, ∃ l, sched s = sched s1 ++ boundary p N ++ l
               ∧ Forall flood2 l
               ∧ Forall (before (observation_period_length p
                                 + initialization_period_length p)%float) l
               ∧ (l = [] → connect_time s = (initialization_period_length p + 0.2)%float)
               ∧ (∀ tc, head l = Some tc →
                    tc.1 = Seconds (initialization_period_length p + 0.2)%float))
    fuel
    (λ s, (connect_time s <?
             observation_period_length p + initialization_period_length p)%float)
    (observe_body T p)
    (enter_observation p (with_sched (sched s1 ++ boundary p N) s1))) as Hobs.
  destruct Hobs as (l2 & E2 & F2 & B2 & _ & H2).
  { exists []. simpl. rewrite app_nil_r. split_and!; (done || constructor). }
  { intros f s (l & E & F & B & Hnil & Hhead) Hc.
    destruct (observe_body_cases T p f s)
      as [->|(s' & -> & a & c & q & _ & _ & Hs' & _)]; simpl.
    - by exists l.
    - exists (l ++ [(Seconds (connect_time s), FloodPacketWithSeq c q 2)]).
      split_and!.
      + by rewrite Hs', E, <- !app_assoc.
      + apply Forall_app. split; [done|]. constructor; [|constructor]. by eexists _, _.
      + apply Forall_app. split; [done|]. constructor; [|constructor].
        by exists (connect_time s).
      + intros E'. by apply app_nil in E' as [_ ?].
      + destruct l as [|tc' l]; simpl; [|by apply Hhead].
        intros tc [= <-]. simpl. by rewrite Hnil. }
  exists (sched s1), l2.
  destruct (while_do _ _ _ _) as [s3|s3|s3]; simpl in *;
    (split_and!; [done|done|by right| |done|done|done]); [|done..].
  by intros s [= <-].
Qed.

(** X8. A connect is only scheduled for a time that passed the test of its
    loop: every flood of the initialization period after the first is
    scheduled for [Seconds(d)] with [d < initialization_period_length], and
    every flood of the observation period with
    [d < observation_period_length + initialization_period_length] (both
    compared as [double]s); the first flood of the observation period is at
    [initialization_period_length + 0.2]. *)
Theorem floods_within_their_period (argc : Z) (p : Params) (N seed : Z) (fuel : nat) :
  10 ≤ argc → 1 ≤ N < 2 ^ 30 →
  let run := main argc p N seed fuel in
  ∃ l1 l2,
    Forall flood2 l1 ∧ Forall flood2 l2
    ∧ (calls_of run = l1 ∨ calls_of run = l1 ++ boundary p N ++ l2)
    ∧ (returned run = true → calls_of run = l1 ++ boundary p N ++ l2)
    ∧ Forall (before (initialization_period_length p)) (tail l1)
    ∧ Forall (before (observation_period_length p + initialization_period_length p)%float) l2
    ∧ (∀ tc, head l2 = Some tc →
         tc.1 = Seconds (initialization_period_length p + 0.2)%float).
Proof.
  intros Hargc HN. unfold main. destruct (Z.ltb_spec argc 10); [lia|].
  destruct (build_topology_spec p N) as (T & -> & HT); [lia|]. simpl.
  destruct (schedule_events_times T p N seed fuel HN HT)
    as (l1 & l2 & F1 & F2 & Hpart & Hfull & B1 & B2 & H2).
  exists l1, l2. split_and!; try done.
  destruct (schedule_events T p seed fuel) as [s| |]; [|done..].
  intros _. by apply Hfull.
Qed.

Lemma connect_body_stop T s : stop_at (state_of (connect_body T s)) = stop_at s.
Proof.
  unfold connect_body. destruct (rnd_gen (gen s)) as [r g1].
  destruct (umod _ _) as [app_indx|]; [|done].
  destruct (Get _ _) as [consumer|]; [|done].
  destruct (GetNextSeq _) as [c z1]. by destruct (exponential _ _) as [gap g2].
Qed.

Lemma observe_body_stop T p f s : stop_at (ctl_state (observe_body T p f s)) = stop_at s.
Proof.
  unfold observe_body. destruct (rnd_gen (gen s)) as [r g1].
  destruct (umod _ _) as [app_indx|]; [|done].
  destruct (Get _ _) as [consumer|]; [|done].
  destruct (GetNextSeq _) as [c z1]. destruct (exponential _ _) as [gap g2].
  by rewrite while_do_false.
Qed.

Lemma disconnect_producer_stop T p s :
  stop_at (state_of (disconnect_producer T p s)) = stop_at s.
Proof.
  unfold disconnect_producer. destruct (for_each _ _ _) as [l|]; [|done].
  by repeat case_match.
Qed.

(** X9. [Simulator::Stop] is the last thing scheduled: it has been called,
    for [Seconds(observation_period_length + initialization_period_length)],
    exactly in the runs that reach [Simulator::Run]. *)
Theorem stop_at_the_horizon (argc : Z) (p : Params) (N seed : Z) (fuel : nat) :
  stop_of (main argc p N seed fuel)
  = if returned (main argc p N seed fuel)
    then Some (Seconds (observation_period_length p + initialization_period_length p)%float)
    else None.
Proof.
  unfold main. destruct (argc <? 10); [done|].
  destruct (build_topology p N) as [T|]; [|done]. simpl.
  unfold schedule_events.
  pose proof (do_while_invariant (λ s, stop_at s = None) fuel (connect_body T)
    (λ s, (connect_time s <? initialization_period_length p)%float)
    (initial T p seed)
    (λ s Hs, eq_trans (connect_body_stop T s) Hs) eq_refl) as H1.
  destruct (do_while _ _ _ _) as [s1|s1|s1]; simpl in H1 |- *; [|done..].
  pose proof (disconnect_producer_stop T p s1) as H2. rewrite H1 in H2.
  destruct (disconnect_producer T p s1) as [s2|s2|s2]; simpl in H2 |- *; [|done..].
  pose proof (while_do_invariant (λ s, stop_at s = None) fuel
    (λ s, (connect_time s <?
             observation_period_length p + initialization_period_length p)%float)
    (observe_body T p) (enter_observation p s2)
    (λ f s Hs, eq_trans (observe_body_stop T p f s) Hs) H2) as H3.
  by destruct (while_do _ _ _ _) as [s3|s3|s3].
Qed.

End Horizon.

Lemma one_removal_per_infrastructure_node_witness :
  filter (λ tc, is_removal tc.2)
    (calls_of (main (H := Replay.platform) 10 Replay.params 3 7 100))
  = [(1000, RemoveRoute 0 "ndn:///prefix"); (1000, RemoveRoute 1 "ndn:///prefix");
     (1000, RemoveRoute 2 "ndn:///prefix")].
Proof.
  destruct (one_removal_per_infrastructure_node (H := Replay.platform)
              10 Replay.params 3 7 100) as (T & HT & _ & Hall); [lia|lia|].
  rewrite Hall by (vm_compute; reflexivity).
  assert (infrastructure_nodes T = [0; 1; 2]) as ->; [|reflexivity].
  revert HT. vm_compute. by intros [= <-].
Defined.

Lemma floods_within_their_period_witness :
  ∃ l1 l2,
    calls_of (main (H := Replay.platform) 10 Replay.params 3 7 100)
    = l1 ++ boundary (H := Replay.platform) Replay.params 3 ++ l2
    ∧ Forall (before (H := Replay.platform) 1%float) (tail l1)
    ∧ Forall (before (H := Replay.platform) 2%float) l2.
Proof.
  destruct (floods_within_their_period (H := Replay.platform) 10 Replay.params 3 7 100)
    as (l1 & l2 & _ & _ & _ & Hfull & B1 & B2 & _); [lia|lia|].
  exists l1, l2. split_and!; [|exact B1|exact B2].
  apply Hfull. vm_compute. reflexivity.
Defined.

(** ** The session table (lines 264-276, 298-345) *)

Lemma sum_counts_cons kv (m : int_map) : sum_counts (kv :: m) = kv.2 + sum_counts m.
Proof. done. Qed.

Lemma total_sessions_cons m (cc : list int_map) :
  total_sessions (m :: cc) = sum_counts m + total_sessions cc.
Proof. done. Qed.

Lemma sum_counts_map_incr k m : sum_counts (map_incr k m) = sum_counts m + 1.
Proof.
  induction m as [|[k' v] m IH]; [done|]. cbn [map_incr].
  destruct (k <? k'); [rewrite !sum_counts_cons; simpl; lia|].
  destruct (k =? k'); rewrite !sum_counts_cons; simpl; lia.
Qed.

Lemma sum_counts_delete (m : int_map) i kv :
  m !! i = Some kv → sum_counts (delete i m) = sum_counts m - kv.2.
Proof.
  unfold int_map in *. revert i. induction m as [|x m IH]; intros [|i]; try done.
  - intros [= ->]. simpl. rewrite ?sum_counts_cons. lia.
  - intros Hi. apply IH in Hi. simpl. rewrite ?sum_counts_cons. lia.
Qed.

Lemma sum_counts_insert (m : int_map) i kv kv' :
  m !! i = Some kv → sum_counts (<[i := kv']> m) = sum_counts m - kv.2 + kv'.2.
Proof.
  unfold int_map in *. revert i. induction m as [|x m IH]; intros [|i]; try done.
  - intros [= ->]. simpl. rewrite ?sum_counts_cons. lia.
  - intros Hi. apply IH in Hi. simpl. rewrite ?sum_counts_cons. lia.
Qed.

Lemma total_sessions_insert (cc : list int_map) i m m' :
  cc !! i = Some m →
  total_sessions (<[i := m']> cc) = total_sessions cc - sum_counts m + sum_counts m'.
Proof.
  revert i. induction cc as [|x cc IH]; intros [|i]; try done.
  - intros [= ->]. simpl. rewrite ?total_sessions_cons. lia.
  - intros Hi. apply IH in Hi. simpl. rewrite ?total_sessions_cons. lia.
Qed.

Lemma total_sessions_bump a q cc :
  0 ≤ a < Z.of_nat (length cc) →
  total_sessions (bump a q cc) = total_sessions cc + 1.
Proof.
  intros Ha. unfold bump. destruct (Get cc a) as [m|] eqn:Hm.
  - apply Get_Some in Hm as [_ Hm].
    rewrite (total_sessions_insert cc _ m) by done.
    rewrite sum_counts_map_incr. lia.
  - rewrite Get_lookup in Hm by lia. apply lookup_ge_None in Hm. lia.
Qed.

Lemma total_sessions_replicate n : total_sessions (replicate n []) = 0.
Proof.
  induction n as [|n IH]; [done|].
  cbn [replicate]. rewrite total_sessions_cons, IH. done.
Qed.

Lemma total_sessions_empty cc :
  Forall (λ m, map_empty m = true) cc → total_sessions cc = 0.
Proof.
  induction 1 as [|m cc Hm Hcc IH]; [done|].
  destruct m; [|done]. rewrite total_sessions_cons, IH. done.
Qed.

Lemma map_incr_positive k (m : int_map) :
  Forall (λ kv : Z * Z, 1 ≤ kv.2) m → Forall (λ kv : Z * Z, 1 ≤ kv.2) (map_incr k m).
Proof.
  induction 1 as [|[k' v] m Hv Hm IH]; simpl.
  - by repeat constructor.
  - simpl in Hv. destruct (k <? k'); [by repeat constructor|].
    destruct (k =? k'); constructor; simpl; (done || lia).
Qed.

Lemma bump_positive a q cc : counts_positive cc → counts_positive (bump a q cc).
Proof.
  intros Hcc. unfold bump. destruct (Get cc a) as [m|] eqn:Hm; [|done].
  apply Get_Some in Hm as [_ Hm]. apply Forall_insert; [done|].
  apply map_incr_positive. by eapply Forall_lookup_1 in Hcc.
Qed.

Section SessionTable.
Context `{Platform}.

(** Drawing a connected consumer touches the generator only, however the
    draw ends. *)
Lemma pick_connected_state fuel T s :
  match pick_connected fuel T s with
  | Ok (_, s') | Fault s' | Timeout s' => s' = s ∨ ∃ g, s' = with_gen g s
  end.
Proof.
  revert s. induction fuel as [|fuel IH]; intros s; simpl;
    destruct (rnd_gen (gen s)) as [r g1];
    (destruct (umod _ _) as [a|]; [|by left]);
    (destruct (Get _ a) as [m|]; [|by right; eexists]);
    (destruct (map_empty m); [|by right; eexists]).
  - right. by eexists.
  - specialize (IH (with_gen g1 s)).
    destruct (pick_connected fuel T (with_gen g1 s)) as [[a' s']|s'|s'];
      (destruct IH as [->|[g ->]]; right; by eexists).
Qed.

(** One pass through the disconnection branch, however it ends: either
    nothing but the generator has changed, or one session count went down
    by one. *)
Lemma disconnect_body_cases T p fuel s :
  let s' := ctl_state (disconnect_body T p fuel s) in
  ((s' = s ∨ ∃ g, s' = with_gen g s)
   ∧ (num_connected s = 0 → disconnect_body T p fuel s = Ok (Brk s)))
  ∨ ∃ a k first second m m' l,
      num_connected s ≠ 0
      ∧ Get (connected_content s) a = Some m
      ∧ Get m k = Some (first, second)
      ∧ (second - 1 = 0 ∧ m' = delete (Z.to_nat k) m
           ∧ (∃ x name y,
                l = [(Seconds (disconnect_time s), RemoveRouteVia x name y)])
         ∨ second - 1 ≠ 0 ∧ m' = <[Z.to_nat k := (first, second - 1)]> m ∧ l = [])
      ∧ num_connected s' = u32 (num_connected s - 1)
      ∧ connected_content s' = <[Z.to_nat a := m']> (connected_content s)
      ∧ sched s' = sched s ++ l
      ∧ same_connect_side s s'.
Proof.
  unfold disconnect_body.
  destruct (Z.eqb_spec 0 (num_connected s)) as [Hz|Hnz]; [left; split; [by left|done]|].
  pose proof (pick_connected_state fuel T s) as Hstate.
  destruct (pick_connected fuel T s) as [[a s1]|s1|s1] eqn:Hpick;
    [|left; split; [done|intros; lia]..].
  apply pick_connected_spec in Hpick as ([g ->] & _ & m & Hm & _). clear Hstate.
  simpl. rewrite Hm. simpl.
  destruct (rnd_gen g) as [r g2].
  destruct (umod _ _) as [k|]; [|left; split; [right; by eexists|intros; lia]].
  destruct (Get m k) as [[first second]|] eqn:Hk;
    [|left; split; [right; by eexists|intros; lia]].
  destruct (second - 1) as [|c|c] eqn:Hsecond; simpl.
  - destruct (Get (nodes T) _) as [x|], (Get (nodes T) _) as [y|]; simpl;
      try (left; split; [right; by eexists|intros; lia]).
    destruct (exponential _ _) as [gap g3]. simpl.
    right. eexists a, k, first, second, m, _, _. split_and!; try done.
    + left. split_and!; [lia|done|]. by eexists _, _, _.
    + unfold same_connect_side. simpl. split_and!; try done. apply length_insert.
  - destruct (exponential _ _) as [gap g3]. simpl.
    right. eexists a, k, first, second, m, _, _. split_and!; try done.
    + right. split_and!; [lia|by rewrite Hsecond|done].
    + by rewrite app_nil_r.
    + unfold same_connect_side. simpl. split_and!; try done. apply length_insert.
  - destruct (exponential _ _) as [gap g3]. simpl.
    right. eexists a, k, first, second, m, _, _. split_and!; try done.
    + right. split_and!; [lia|by rewrite Hsecond|done].
    + by rewrite app_nil_r.
    + unfold same_connect_side. simpl. split_and!; try done. apply length_insert.
Qed.

End SessionTable.

Lemma u32_succ x : u32 (u32 x + 1) = u32 (x + 1).
Proof. unfold u32. by rewrite Z.add_mod_idemp_l. Qed.

Lemma u32_pred x : u32 (u32 x - 1) = u32 (x - 1).
Proof. unfold u32. by rewrite Zminus_mod_idemp_l. Qed.

Lemma total_sessions_nonzero cc :
  total_sessions cc ≠ 0 → ∃ i m, cc !! i = Some m ∧ map_empty m = false.
Proof.
  induction cc as [|m cc IH]; [done|]. rewrite total_sessions_cons.
  destruct m as [|kv m0].
  - intros Hcc. destruct IH as (i & m' & Hi & Hne); [simpl in Hcc; lia|].
    by exists (S i), m'.
  - intros _. by exists 0%nat, (kv :: m0).
Qed.

Section Counters.
Context `{Platform}.

Lemma disconnect_producer_table T p s :
  num_connected (state_of (disconnect_producer T p s)) = num_connected s
  ∧ connected_content (state_of (disconnect_producer T p s)) = connected_content s.
Proof.
  unfold disconnect_producer. destruct (for_each _ _ _) as [l|]; [|done].
  by repeat case_match.
Qed.

Lemma connect_step_agree T s s' :
  connect_step T s s' →
  counters_agree s ∧ slots_for T s → counters_agree s' ∧ slots_for T s'.
Proof.
  intros (a & c & q & Ha & _ & _ & Hnum & Hcc & _) [Hagree Hslots].
  unfold counters_agree, slots_for in *. rewrite Hnum, Hcc, length_bump.
  split; [|done]. rewrite total_sessions_bump by lia.
  rewrite Hagree. apply u32_succ.
Qed.

Lemma schedule_events_agree T p seed fuel :
  counters_agree (state_of (schedule_events T p seed fuel))
  ∧ slots_for T (state_of (schedule_events T p seed fuel)).
Proof.
  apply (schedule_events_invariant (λ s, counters_agree s ∧ slots_for T s)).
  - unfold counters_agree, slots_for. simpl.
    rewrite total_sessions_replicate, length_replicate, Z2Nat.id by apply GetN_nonneg.
    done.
  - intros s Hs. destruct (connect_body_cases T s) as [->|(s' & -> & Hstep)]; [done|].
    by eapply connect_step_agree.
  - intros s Hs. destruct (disconnect_producer_table T p s) as [Hn Hc].
    unfold counters_agree, slots_for in *. by rewrite Hn, Hc.
  - done.
  - intros f s Hs.
    destruct (observe_body_cases T p f s) as [->|(s' & -> & Hstep)]; [done|].
    by eapply connect_step_agree.
  - done.
Qed.

(** X10. The connection counter and the session table never drift apart:
    wherever a run has got to, [num_connected] is the sum of all session
    counts (as a [uint32_t]), and a pass through the disconnection branch
    keeps it so, however the pass ends.  Hence, past the guard
    [0 == num_connected], some consumer does hold a session for the draw
    loop to find. *)
Theorem session_counter_agrees (T : Topo) (p : Params) :
  (∀ seed fuel, counters_agree (state_of (schedule_events T p seed fuel)))
  ∧ (∀ fuel s, counters_agree s →
       counters_agree (ctl_state (disconnect_body T p fuel s)))
  ∧ (∀ s, counters_agree s → num_connected s ≠ 0 →
       ∃ a m, Get (connected_content s) a = Some m ∧ map_empty m = false).
Proof.
  split_and!.
  - intros seed fuel. apply schedule_events_agree.
  - intros fuel s Hagree.
    destruct (disconnect_body_cases T p fuel s)
      as [[[->|[g ->]] _]
         |(a & k & first & second & m & m' & l & _ & Hm & Hk & Hm' & Hnum & Hcc & _)];
      [done..|].
    unfold counters_agree in *. rewrite Hnum, Hcc, Hagree, u32_pred. f_equal.
    apply Get_Some in Hm as [_ Hm]. apply Get_Some in Hk as [_ Hk].
    rewrite (total_sessions_insert _ _ m) by done.
    destruct Hm' as [(Hz & -> & _)|(Hnz & -> & _)].
    + rewrite (sum_counts_delete m _ (first, second)) by done. simpl. lia.
    + rewrite (sum_counts_insert m _ (first, second)) by done. simpl. lia.
  - intros s Hagree Hnz. unfold counters_agree in Hagree.
    destruct (total_sessions_nonzero (connected_content s)) as (i & m & Hi & Hne).
    { intros Hz. by rewrite Hz in Hagree. }
    exists (Z.of_nat i), m. split; [|done].
    rewrite Get_lookup by lia. by rewrite Nat2Z.id.
Qed.

(** X11. No session is ever on record with a count below 1: a connect
    enters a new session with count 1 or raises a count, and the
    disconnection branch erases a session in the very pass that brings its
    count to zero. *)
Theorem session_counts_stay_positive (T : Topo) (p : Params) :
  (∀ seed fuel,
     counts_positive (connected_content (state_of (schedule_events T p seed fuel))))
  ∧ (∀ fuel s, counts_positive (connected_content s) →
       counts_positive (connected_content (ctl_state (disconnect_body T p fuel s)))).
Proof.
  split.
  - intros seed fuel.
    apply (schedule_events_invariant (λ s, counts_positive (connected_content s))).
    + simpl. by apply Forall_replicate.
    + intros s Hs.
      destruct (connect_body_cases T s)
        as [->|(s' & -> & a & c & q & _ & _ & _ & _ & Hcc & _)]; [done|].
      simpl. rewrite Hcc. by apply bump_positive.
    + intros s Hs. by rewrite (proj2 (disconnect_producer_table T p s)).
    + done.
    + intros f s Hs.
      destruct (observe_body_cases T p f s)
        as [->|(s' & -> & a & c & q & _ & _ & _ & _ & Hcc & _)]; [done|].
      simpl. rewrite Hcc. by apply bump_positive.
    + done.
  - intros fuel s Hpos.
    destruct (disconnect_body_cases T p fuel s)
      as [[[->|[g ->]] _]
         |(a & k & first & second & m & m' & l & _ & Hm & Hk & Hm' & _ & Hcc & _)];
      [done..|].
    rewrite Hcc. apply Get_Some in Hm as [_ Hm]. apply Get_Some in Hk as [_ Hk].
    assert (Forall (λ kv : Z * Z, 1 ≤ kv.2) m) as Hmpos
      by (by eapply Forall_lookup_1 in Hpos).
    apply Forall_insert; [done|].
    destruct Hm' as [(Hz & -> & _)|(Hnz & -> & _)].
    + by apply Forall_delete.
    + apply Forall_insert; [done|]. simpl.
      eapply Forall_lookup_1 in Hmpos; [|done]. simpl in Hmpos. lia.
Qed.

(** X12. A pass through the disconnection branch stays on the disconnect
    side: the connect-time cursor, the connect distribution, the content
    distribution, the stop time and the number of session slots are as
    before, and at most one call is added to the schedule — a scoped route
    removal at the disconnect-time cursor.  With no connection counted the
    branch breaks out at once and changes nothing. *)
Theorem disconnect_stays_on_its_side (T : Topo) (p : Params) (fuel : nat) (s : St) :
  let s' := ctl_state (disconnect_body T p fuel s) in
  same_connect_side s s'
  ∧ (sched s' = sched s
     ∨ ∃ x name y,
         sched s' = sched s
           ++ [(Seconds (disconnect_time s), RemoveRouteVia x name y)])
  ∧ (num_connected s = 0 → disconnect_body T p fuel s = Ok (Brk s)).
Proof.
  destruct (disconnect_body_cases T p fuel s)
    as [[Hs' Hbrk]
       |(a & k & first & second & m & m' & l & Hnz & _ & _ & Hm' & _ & _ & Hl & Hside)].
  - split_and!; [|left|done]; by destruct Hs' as [->|[g ->]].
  - split_and!; [done| |done].
    destruct Hm' as [(_ & _ & x & name & y & ->)|(_ & _ & ->)].
    + right. by exists x, name, y.
    + left. by rewrite app_nil_r in Hl.
Qed.

End Counters.

Lemma session_counter_agrees_witness :
  counters_agree (H := Replay.platform)
    (ctl_state (disconnect_body replay_topology Replay.params 5 two_sessions))
  ∧ ∃ a m, Get (connected_content two_sessions) a = Some m ∧ map_empty m = false.
Proof.
  destruct (session_counter_agrees (H := Replay.platform) replay_topology Replay.params)
    as (_ & Hbody & Hguard).
  split.
  - apply Hbody. vm_compute. reflexivity.
  - apply Hguard; [vm_compute; reflexivity|]. vm_compute. discriminate.
Defined.

Lemma session_counts_stay_positive_witness :
  counts_positive
    (connected_content (H := Replay.platform)
       (ctl_state (disconnect_body replay_topology Replay.params 5 last_session))).
Proof.
  destruct (session_counts_stay_positive (H := Replay.platform)
              replay_topology Replay.params) as [_ Hbody].
  apply Hbody. repeat (constructor; try (simpl; lia)).
Defined.

Lemma disconnect_stays_on_its_side_witness :
  connect_time (H := Replay.platform)
    (ctl_state (disconnect_body replay_topology Replay.params 5 last_session))
  = connect_time last_session.
Proof.
  apply (disconnect_stays_on_its_side (H := Replay.platform)
           replay_topology Replay.params 5 last_session).
Defined.

(** ** The draw of a connected consumer (lines 315-319) *)

Section Draw.
Context `{Platform}.

(** X13. The draw loop of the disconnection branch only comes up with the
    index of a consumer application that holds at least one session, and
    it changes nothing but the random generator.  When no consumer holds a
    session it never comes up with an index, whatever the draws. *)
Theorem draw_finds_a_connected_consumer (fuel : nat) (T : Topo) (s : St) :
  (∀ a, picked (pick_connected fuel T s) = Some a →
     0 ≤ a < GetN (consumer_apps T)
     ∧ ∃ m, Get (connected_content s) a = Some m ∧ map_empty m = false)
  ∧ (Forall (λ m, map_empty m = true) (connected_content s) →
     picked (pick_connected fuel T s) = None)
  ∧ (picked_state (pick_connected fuel T s) = s
     ∨ ∃ g, picked_state (pick_connected fuel T s) = with_gen g s).
Proof.
  assert (∀ a, picked (pick_connected fuel T s) = Some a →
     0 ≤ a < GetN (consumer_apps T)
     ∧ ∃ m, Get (connected_content s) a = Some m ∧ map_empty m = false) as Hfound.
  { intros a. destruct (pick_connected fuel T s) as [[a' s']| |] eqn:Hpick; [|done..].
    intros [= ->]. by apply pick_connected_spec in Hpick as (_ & Ha & Hm). }
  split_and!; [done| |].
  - intros Hempty. destruct (picked (pick_connected fuel T s)) as [a|]; [|done].
    destruct (Hfound a eq_refl) as (_ & m & Hm%Get_elem_of & Hne).
    rewrite Forall_forall in Hempty. apply Hempty in Hm. congruence.
  - pose proof (pick_connected_state fuel T s) as Hstate.
    by destruct (pick_connected fuel T s) as [[a' s']|s'|s'].
Qed.

End Draw.

Lemma draw_finds_a_connected_consumer_witness :
  (∃ m, Get (connected_content two_sessions) 0 = Some m ∧ map_empty m = false)
  ∧ picked (pick_connected 5 replay_topology
              (initial (H := Replay.platform) replay_topology Replay.params 7)) = None.
Proof.
  destruct (draw_finds_a_connected_consumer (H := Replay.platform)
              5 replay_topology two_sessions) as (Hfound & _ & _).
  destruct (draw_finds_a_connected_consumer (H := Replay.platform)
              5 replay_topology (initial replay_topology Replay.params 7))
    as (_ & Hnone & _).
  split.
  - apply Hfound. vm_compute. reflexivity.
  - apply Hnone. vm_compute. repeat constructor.
Defined.

(** ** The observation loop as a [while] (lines 289-347) *)

Section Observation.
Context `{Platform}.

Lemma while_do_done fuel cond body s : cond s = false → while_do fuel cond body s = Ok s.
Proof. intros Hc. destruct fuel; simpl; by rewrite Hc. Qed.

(** X14. The observation loop tests before it connects: a run that reaches
    [Simulator::Run] has scheduled no flood after the phase boundary
    exactly when [initialization_period_length + 0.2] is not below
    [observation_period_length + initialization_period_length] (as
    [double]s).  The initialization loop, a [do ... while], has no such
    case. *)
Theorem observation_may_schedule_nothing (argc : Z) (p : Params) (N seed : Z)
    (fuel : nat) :
  10 ≤ argc → 1 ≤ N < 2 ^ 30 →
  let run := main argc p N seed fuel in
  returned run = true →
  ∃ l1 l2,
    Forall flood2 l1 ∧ Forall flood2 l2
    ∧ l1 ≠ []
    ∧ calls_of run = l1 ++ boundary p N ++ l2
    ∧ (l2 = [] ↔
       (initialization_period_length p + 0.2 <?
          observation_period_length p + initialization_period_length p)%float = false).
Proof.
  intros Hargc HN. unfold main. destruct (Z.ltb_spec argc 10); [lia|].
  destruct (build_topology_spec p N) as (T & -> & HT); [lia|]. simpl.
  unfold schedule_events.
  pose proof (do_while_grows flood2 fuel (connect_body T)
    (λ s, (connect_time s <? initialization_period_length p)%float)
    (initial T p seed) (connect_body_grows T)) as (l1 & E1 & F1).
  assert (do_while fuel (connect_body T)
    (λ s, (connect_time s <? initialization_period_length p)%float)
    (initial T p seed) = Fault (initial T p seed) ∨ l1 ≠ []) as Hl1.
  { destruct (connect_body_cases T (initial T p seed))
      as [Hf|(s' & Hs' & a & c & q & _ & _ & Hsched & _)].
    - left. destruct fuel; simpl; by rewrite Hf.
    - right. intros ->.
      destruct (do_while_first (λ _, True) fuel (connect_body T)
        (λ s, (connect_time s <? initialization_period_length p)%float)
        (initial T p seed) s' Hs') as (l & El & _).
      { intros s. destruct (connect_body_grows T s) as (l & El & _).
        exists l. split; [done|]. by apply Forall_true. }
      rewrite El, Hsched in E1. simpl in E1. done. }
  destruct (do_while _ _ _ _) as [s1| |] eqn:Hloop1; [|done..].
  destruct Hl1 as [?|Hl1]; [done|]. simpl in E1.
  rewrite (disconnect_producer_spec T p N s1 HN HT).
  set (s2 := enter_observation p (with_sched (sched s1 ++ boundary p N) s1)).
  pose proof (while_do_grows flood2 fuel
    (λ s, (connect_time s <?
             observation_period_length p + initialization_period_length p)%float)
    (observe_body T p) s2 (observe_body_grows T p)) as (l2 & E2 & F2).
  destruct (initialization_period_length p + 0.2 <?
              observation_period_length p + initialization_period_length p)%float
    eqn:Hc.
  - (* the test passes: one connect at least *)
    destruct fuel as [|fuel]; simpl in *; rewrite Hc in *; [done|].
    destruct (observe_body_cases T p fuel s2)
      as [Hf|(s' & Hs' & a & c & q & _ & _ & Hsched & _)]; rewrite ?Hf, ?Hs' in *;
      [done|].
    pose proof (while_do_grows (λ _, True) fuel
      (λ s, (connect_time s <?
               observation_period_length p + initialization_period_length p)%float)
      (observe_body T p) s') as (l & El & _).
    { intros f s. destruct (observe_body_grows T p f s) as (l & El & _).
      exists l. split; [done|]. by apply Forall_true. }
    destruct (while_do _ _ _ _) as [s3| |]; [|done..]. simpl in *. intros _.
    exists l1, l2. split_and!; try done.
    + rewrite E2, E1. by rewrite <- app_assoc.
    + split; [|done]. intros ->.
      rewrite El, Hsched, app_nil_r, E1 in E2. simpl in E2.
      rewrite <- !app_assoc in E2. apply app_inv_head in E2.
      apply (f_equal length) in E2. rewrite !length_app in E2. simpl in E2. lia.
  - (* the test fails at once *)
    rewrite while_do_done in * by done. simpl in *. intros _.
    exists l1, []. rewrite app_nil_r. split_and!; try done. by rewrite E1.
Qed.

End Observation.

Lemma observation_may_schedule_nothing_witness :
  ∃ l1 l2,
    l1 ≠ []
    ∧ calls_of (main (H := Replay.platform) 10 Replay.params 3 7 100)
      = l1 ++ boundary (H := Replay.platform) Replay.params 3 ++ l2.
Proof.
  destruct (observation_may_schedule_nothing (H := Replay.platform)
              10 Replay.params 3 7 100) as (l1 & l2 & _ & _ & Hne & Hcalls & _);
    [lia|lia|vm_compute; reflexivity|].
  exists l1, l2. split; [exact Hne|exact Hcalls].
Defined.
